(** * x_v3_local: session cookies, scroll harvester, stream supervisor

    A shallow embedding of the core of [x-local/x_v3_local.py]: the cookie
    filters and the session resolution of [_with_page], the cookie merge
    helper, the scroll harvester [_collect_with_scroll], the limit clamping
    of the paginated endpoints and the ffmpeg stream supervisor
    ([_run_stream_status], [_run_stream_start], [_run_stream_stop]).

    Python values are modelled by scalars, strings by their UTF-8
    encoding, Python dicts by insertion-ordered association lists,
    exceptions by a [result] type and the file system and the operating
    system by explicit state. *)

From Stdlib Require Import ZArith List String Ascii Lia Bool.
From stdpp Require Import base list strings pretty gmap.

Local Open Scope string_scope.
Local Open Scope Z_scope.
Local Open Scope list_scope.

(** ** Python values, as far as the program looks at them *)

Module Py.

(** The values stored in cookie dicts and harvested rows that the program
    inspects are scalars: [None], booleans, integers and strings. *)
Inductive value : Type :=
| VNone
| VBool (b : bool)
| VInt (z : Z)
| VStr (s : string).

#[global] Instance value_eq_dec : EqDecision value.
Proof. solve_decision. Defined.

(** Truth value of [v] in a boolean context. *)
Definition truthy (v : value) : bool :=
  match v with
  | VNone => false
  | VBool b => b
  | VInt z => negb (z =? 0)
  | VStr s => negb (String.eqb s "")
  end.

(** [v or d] *)
Definition or_ (v d : value) : value := if truthy v then v else d.

(** [str(v)] *)
Definition str (v : value) : string :=
  match v with
  | VNone => "None"
  | VBool true => "True"
  | VBool false => "False"
  | VInt z => pretty z
  | VStr s => s
  end.

(** A dict with string keys, in insertion order. *)
Definition dict : Type := list (string * value).

(** [d.get(k)]: the value under [k], [None] when the key is missing. *)
Fixpoint get (d : dict) (k : string) : value :=
  match d with
  | [] => VNone
  | (k', v) :: rest => if String.eqb k' k then v else get rest k
  end.

(** [not s] for a string [s]. *)
Definition str_empty (s : string) : bool :=
  match s with
  | EmptyString => true
  | String _ _ => false
  end.

(** [needle in hay] for two strings. *)
Fixpoint str_contains (needle hay : string) : bool :=
  String.prefix needle hay ||
  match hay with
  | EmptyString => false
  | String _ rest => str_contains needle rest
  end.

(** A Python [str] is held as its UTF-8 encoding, the bytes a string
    literal of Rocq has; a string that is no such encoding stands for no
    [str]. A byte [10xxxxxx] continues a character; every other byte starts
    one. *)
Definition is_continuation (a : ascii) : bool :=
  let n := nat_of_ascii a in ((128 <=? n) && (n <=? 191))%nat.

(** Whether a string begins with a continuation byte, which the encoding
    of a Python [str] never does. *)
Definition starts_inside (s : string) : bool :=
  match s with
  | EmptyString => false
  | String a _ => is_continuation a
  end.

(** The characters of a string, each with the bytes that encode it. *)
Fixpoint chars (s : string) : list string :=
  match s with
  | EmptyString => []
  | String a rest =>
      match chars rest with
      | c :: cs =>
          if starts_inside c then String a c :: cs
          else String a EmptyString :: c :: cs
      | [] => [String a EmptyString]
      end
  end.

(** [''.join(cs)] *)
Definition join (cs : list string) : string :=
  fold_right String.append EmptyString cs.

(** The string with the given bytes. *)
Definition of_bytes (bytes : list nat) : string :=
  string_of_list_ascii (map ascii_of_nat bytes).

(** The characters [c] with [c.isspace()], which are the ones
    [str.strip()] removes: U+0009 to U+000D, U+001C to U+0020, U+0085,
    U+00A0, U+1680, U+2000 to U+200A, U+2028, U+2029, U+202F, U+205F and
    U+3000. *)
Definition WHITESPACE : list string :=
  map of_bytes
    [[9]; [10]; [11]; [12]; [13]; [28]; [29]; [30]; [31]; [32];
     [194; 133]; [194; 160]; [225; 154; 128];
     [226; 128; 128]; [226; 128; 129]; [226; 128; 130]; [226; 128; 131];
     [226; 128; 132]; [226; 128; 133]; [226; 128; 134]; [226; 128; 135];
     [226; 128; 136]; [226; 128; 137]; [226; 128; 138];
     [226; 128; 168]; [226; 128; 169]; [226; 128; 175]; [226; 129; 159];
     [227; 128; 128]]%nat.

Definition is_space (c : string) : bool := existsb (String.eqb c) WHITESPACE.

Fixpoint drop_while {A : Type} (f : A -> bool) (l : list A) : list A :=
  match l with
  | [] => []
  | x :: rest => if f x then drop_while f rest else l
  end.

(** The characters that are left when the white space at both ends is
    removed. *)
Definition trim (cs : list string) : list string :=
  rev (drop_while is_space (rev (drop_while is_space cs))).

(** [s.strip()] *)
Definition strip (s : string) : string := join (trim (chars s)).

(** The shape of [chars s]: no character is empty, the bytes after the
    first byte of a character are continuation bytes, and every character
    but the first starts with a byte that is none. *)
Fixpoint continues (s : string) : bool :=
  match s with
  | EmptyString => true
  | String a rest => is_continuation a && continues rest
  end.

Definition is_char (c : string) : bool :=
  match c with
  | EmptyString => false
  | String _ rest => continues rest
  end.

Definition is_lead_char (c : string) : bool :=
  is_char c && negb (starts_inside c).

Definition well_split (cs : list string) : Prop :=
  match cs with
  | [] => True
  | c :: rest => is_char c = true /\ Forall (fun c => is_lead_char c = true) rest
  end.

(** [s.endswith(suffix)] *)
Definition endswith (s suffix : string) : bool :=
  String.prefix (String.rev suffix) (String.rev s).

(** [s.startswith(p)] *)
Definition startswith (s p : string) : bool := String.prefix p s.

(** [l[:n]] for a Python list [l] and an integer [n]: a negative [n] counts
    from the end. *)
Definition slice_to {A : Type} (n : Z) (l : list A) : list A :=
  if 0 <=? n then take (Z.to_nat n) l
  else take (length l - Z.to_nat (- n)) l.

(** Exceptions: the program's own [CliError] with its message, and every
    other exception, told by the name of its class. *)
Inductive exn : Type :=
| CliError (msg : string)
| OtherError (msg : string).

Inductive result (A : Type) : Type :=
| Ok (a : A)
| Raise (e : exn).

Arguments Ok {A} a.
Arguments Raise {A} e.

End Py.

Import Py.

(** ** Insertion-ordered dicts with arbitrary keys

    [seen] in the harvester and [by_key] in the merge helper are Python
    dicts whose iteration order is observed through [list(d.values())]. *)

Module ODict.

Section ODict.
Context {K V : Type} `{EqDecision K}.

Definition t : Type := list (K * V).

Definition empty : t := [].

(** [d.get(k)], as an option *)
Fixpoint lookup (k : K) (d : t) : option V :=
  match d with
  | [] => None
  | (k', v) :: rest => if decide (k' = k) then Some v else lookup k rest
  end.

(** [k in d] *)
Definition mem (k : K) (d : t) : bool :=
  match lookup k d with Some _ => true | None => false end.

(** [d[k] = v]: a present key keeps its position and takes the new value,
    a new key goes to the end. *)
Fixpoint set (k : K) (v : V) (d : t) : t :=
  match d with
  | [] => [(k, v)]
  | (k', v') :: rest =>
      if decide (k' = k) then (k', v) :: rest else (k', v') :: set k v rest
  end.

(** [list(d.keys())] and [list(d.values())] *)
Definition keys (d : t) : list K := map fst d.
Definition values (d : t) : list V := map snd d.

End ODict.

Arguments t : clear implicits.

End ODict.

(** ** Cookie store and session resolution *)

Module Cookies.

Definition X_HOSTS : list string := ["x.com"; "twitter.com"].

(** [any(host in domain for host in X_HOSTS)] *)
Definition any_host_in (domain : string) : bool :=
  existsb (fun host => str_contains host domain) X_HOSTS.

(** [str(item.get(k) or default)] *)
Definition field (item : dict) (k default : string) : string :=
  str (or_ (get item k) (VStr default)).

(** An element of a decoded JSON list: a dict, or anything else. *)
Inductive raw_item : Type :=
| ItemDict (d : dict)
| ItemOther.

(** The persisted cookie document as the loader sees it. *)
Inductive cookie_file : Type :=
| FileMissing
| FileUnparseable
| FileNotList
| FileList (raw : list raw_item).

(** One turn of the loop of [_load_saved_session_cookies]. *)
Definition load_step (cookies : list dict) (item : raw_item) : list dict :=
  match item with
  | ItemOther => cookies
  | ItemDict d =>
      let domain := field d "domain" "" in
      let name := field d "name" "" in
      let value := field d "value" "" in
      if str_empty name || str_empty value || negb (any_host_in domain)
      then cookies
      else cookies ++ [d]
  end.

Definition _load_saved_session_cookies (f : cookie_file) : list dict :=
  match f with
  | FileMissing => []
  | FileUnparseable => []
  | FileNotList => []
  | FileList raw => fold_left load_step raw []
  end.

(** What [context.cookies()] does. *)
Inductive context_cookies : Type :=
| CtxRaises
| CtxNotList
| CtxList (raw : list raw_item).

(** One turn of the loop of [_save_session_cookies]. *)
Definition save_step (out : list dict) (item : raw_item) : list dict :=
  match item with
  | ItemOther => out
  | ItemDict d =>
      let domain := field d "domain" "" in
      if negb (any_host_in domain) then out
      else
        let name := field d "name" "" in
        let value := field d "value" "" in
        if str_empty name || str_empty value then out
        else out ++ [d]
  end.

(** [_save_session_cookies]: the cookie file after the call and the number
    returned. The file is written only when the context hands out a list. *)
Definition _save_session_cookies (ctx : context_cookies) (file : cookie_file)
  : cookie_file * Z :=
  match ctx with
  | CtxRaises => (file, 0)
  | CtxNotList => (file, 0)
  | CtxList raw =>
      let out := fold_left save_step raw [] in
      (FileList (map ItemDict out), Z.of_nat (length out))
  end.

(** A cookie of a browser cookie jar, read through [getattr]. *)
Record JarCookie : Type := {
  jc_domain : option string;
  jc_name : option string;
  jc_value : option string;
  jc_path : option string;
  jc_secure : bool;
  jc_expires : option Z
}.

(** [getattr(cookie, attr, default) or default] *)
Definition attr_or (a : option string) (default : string) : string :=
  match a with
  | Some s => if str_empty s then default else s
  | None => default
  end.

(** The dict built for a jar cookie that passes the filter. *)
Definition jar_dict (c : JarCookie) : dict :=
  [("name", VStr (attr_or (jc_name c) ""));
   ("value", VStr (attr_or (jc_value c) ""));
   ("domain", VStr (attr_or (jc_domain c) ""));
   ("path", VStr (attr_or (jc_path c) "/"));
   ("secure", VBool (jc_secure c));
   ("httpOnly", VBool false)]
  ++ match jc_expires c with
     | Some e => if 0 <? e then [("expires", VInt e)] else []
     | None => []
     end.

(** One turn of the loop of [_load_x_cookies]. *)
Definition jar_step (cookies : list dict) (c : JarCookie) : list dict :=
  let domain := attr_or (jc_domain c) "" in
  if negb (any_host_in domain) then cookies
  else
    let name := attr_or (jc_name c) "" in
    let value := attr_or (jc_value c) "" in
    if str_empty name || str_empty value then cookies
    else cookies ++ [jar_dict c].

(** What the machine a command runs on answers: whether the
    [browser_cookie3] and [playwright] modules import, what [pathlib]
    answers to [Path.expanduser], [/], [Path.is_file] and [Path.exists],
    what the library's loader returns for a browser name and a cookie
    database, the persisted cookie document, and what Playwright does when
    a browser context is started. Paths are kept as the strings [str(path)]
    gives. A library call that raises returns, at [inr], the name of the
    exception, which is never a [CliError]: [Path.expanduser] raises
    [RuntimeError] for a home directory it cannot find, [Path.is_file] and
    [Path.exists] raise the [OSError] that they do not take for an absent
    file; the loader's exception is shown by its message. *)
Record Env : Type := {
  bc3_installed : bool;
  playwright_installed : bool;
  expanduser : string -> string + string;
  joinpath : string -> string -> string;
  is_file : string -> bool + string;
  path_exists : string -> bool + string;
  bc3_loader : string -> option string -> list JarCookie + string;
  saved_file : cookie_file;
  launch_context : option string;
  add_cookies : list dict -> option string;
  new_page : option string
}.

(** The global options of the command line that select the browser. *)
Record BrowserArgs : Type := {
  browser : string;
  chrome_profile : option string;
  chrome_profile_name : string
}.

(** [for candidate in candidates: if candidate.exists(): return
    str(candidate)]; [None] when the loop ends. *)
Fixpoint first_existing (env : Env) (candidates : list string)
  : result (option string) :=
  match candidates with
  | [] => Ok None
  | candidate :: rest =>
      match path_exists env candidate with
      | inr err => Raise (OtherError err)
      | inl true => Ok (Some candidate)
      | inl false => first_existing env rest
      end
  end.

Definition _resolve_cookie_file (env : Env) (browser : string)
    (chrome_profile : option string) (profile_name : string)
  : result (option string) :=
  match chrome_profile with
  | None => Ok None
  | Some profile =>
      if str_empty profile then Ok None
      else
        match expanduser env profile with
        | inr err => Raise (OtherError err)
        | inl root =>
            match is_file env root with
            | inr err => Raise (OtherError err)
            | inl true => Ok (Some root)
            | inl false =>
                let candidates :=
                  [joinpath env (joinpath env root profile_name) "Cookies";
                   joinpath env (joinpath env root "Default") "Cookies";
                   joinpath env root "Cookies"] in
                match first_existing env candidates with
                | Raise err => Raise err
                | Ok (Some candidate) => Ok (Some candidate)
                | Ok None =>
                    Raise (CliError ("Could not locate Cookies DB under "
                                     +:+ root +:+ " for browser=" +:+ browser
                                     +:+ "."))
                end
            end
        end
  end.

Definition VALID_BROWSERS : list string := ["chrome"; "chromium"; "edge"].

(** [_load_x_cookies]. The loader gets the cookie database whenever
    [_resolve_cookie_file] names one: [str] of a path is never empty, so
    [if cookie_file:] tells [None] from a path. *)
Definition _load_x_cookies (env : Env) (browser : string)
    (chrome_profile : option string) (profile_name : string)
  : result (list dict) :=
  if negb (bc3_installed env)
  then Raise (CliError "browser_cookie3 is required. Run setup_env.sh first.")
  else if negb (existsb (String.eqb browser) VALID_BROWSERS)
  then Raise (CliError ("Unsupported browser: " +:+ browser))
  else
    match _resolve_cookie_file env browser chrome_profile profile_name with
    | Raise e => Raise e
    | Ok cookie_file =>
        match bc3_loader env browser cookie_file with
        | inr err =>
            Raise (CliError ("Failed loading browser cookies (" +:+ browser
                             +:+ "): " +:+ err))
        | inl jar =>
            let cookies := fold_left jar_step jar [] in
            match cookies with
            | [] => Raise (CliError
                "No X/Twitter cookies found. Ensure browser profile is logged in.")
            | _ :: _ => Ok cookies
            end
        end
    end.

(** The end of [_with_page]: Playwright is started, a browser is launched,
    a context is made, the cookies, when there are any, are added to it and
    a page is opened. The outcome is the list of cookies the context holds,
    or the exception of the step that failed. *)
Definition open_context (env : Env) (cookies : list dict) : result (list dict) :=
  match launch_context env with
  | Some err => Raise (OtherError err)
  | None =>
      let added :=
        match cookies with
        | [] => None
        | _ :: _ => add_cookies env cookies
        end in
      match added with
      | Some err => Raise (OtherError err)
      | None =>
          match new_page env with
          | Some err => Raise (OtherError err)
          | None => Ok cookies
          end
      end
  end.

(** [_with_page]: the outcome is the list of cookies the new browser context
    holds, or the exception raised on the way. Only a [CliError] of the
    browser source is caught and kept as [load_error]; any other exception
    of [_load_x_cookies] leaves the function at once. *)
Definition _with_page (env : Env) (args : BrowserArgs)
    (require_session allow_browser_cookies allow_saved_session : bool)
  : result (list dict) :=
  if negb (playwright_installed env)
  then Raise (CliError "playwright is required. Run setup_env.sh first.")
  else
    let loaded : result (list dict * option exn) :=
      if allow_browser_cookies then
        match _load_x_cookies env (browser args) (chrome_profile args)
                (chrome_profile_name args) with
        | Ok cs => Ok (cs, None)
        | Raise (CliError m) => Ok ([], Some (CliError m))
        | Raise (OtherError m) => Raise (OtherError m)
        end
      else Ok ([], None) in
    match loaded with
    | Raise e => Raise e
    | Ok (browser_cookies, load_error) =>
        let saved_cookies :=
          if allow_saved_session
          then _load_saved_session_cookies (saved_file env)
          else [] in
        let cookies :=
          match browser_cookies with
          | _ :: _ => browser_cookies
          | [] => saved_cookies
          end in
        match cookies with
        | [] =>
            if require_session then
              match load_error with
              | Some err => Raise err
              | None => Raise (CliError
                  "No local session cookies found. Run user_login_v3 --refresh first.")
              end
            else open_context env cookies
        | _ :: _ => open_context env cookies
        end
    end.

(** The key of the merge helper; [None] when the record is skipped. *)
Definition merge_key (src : dict) : option (string * string * string) :=
  let domain := field src "domain" "" in
  let name := field src "name" "" in
  let path := field src "path" "/" in
  if str_empty domain || str_empty name then None
  else Some (domain, name, path).

Definition merge_step (by_key : ODict.t (string * string * string) dict)
    (src : dict) : ODict.t (string * string * string) dict :=
  match merge_key src with
  | None => by_key
  | Some k => ODict.set k src by_key
  end.

Definition _merge_cookie_sets (primary secondary : list dict) : list dict :=
  ODict.values (fold_left merge_step (secondary ++ primary) ODict.empty).

(** The filter as the specification words it: the domain contains one of
    the target hostnames and both name and value are non-empty. *)
Definition retained (domain name value : string) : Prop :=
  Exists (fun host => str_contains host domain = true) X_HOSTS
  /\ name <> "" /\ value <> "".

#[global] Instance retained_dec domain name value :
  Decision (retained domain name value).
Proof. unfold retained. apply _. Defined.

(** The filter applied to a dict, whose fields are read the way the load and
    save paths read them, and to a jar cookie. *)
Definition dict_retained (d : dict) : Prop :=
  retained (field d "domain" "") (field d "name" "") (field d "value" "").

Definition jar_retained (c : JarCookie) : Prop :=
  retained (attr_or (jc_domain c) "") (attr_or (jc_name c) "")
           (attr_or (jc_value c) "").

(** The dicts among the elements of a decoded list. *)
Definition dicts_of (raw : list raw_item) : list dict :=
  omap (fun item => match item with ItemDict d => Some d | ItemOther => None end) raw.

(** The records of [l] that the merge helper files under the key [k]. *)
Definition with_key (k : string * string * string) (l : list dict) : list dict :=
  filter (fun src => merge_key src = Some k) l.

(** The merge loop keeps every entry filed under the key of its record and
    never files two entries under one key. *)
Definition merge_inv (d : ODict.t (string * string * string) dict) : Prop :=
  NoDup (ODict.keys d) /\ Forall (fun kv => merge_key kv.2 = Some kv.1) d.

End Cookies.

(** ** The scroll harvester *)

Module Harvester.

Definition row : Type := dict.

(** [str(row.get("key") or "")] *)
Definition row_key (r : row) : string := str (or_ (get r "key") (VStr "")).

(** The body of the inner loop of [_collect_with_scroll]: a row without a
    key is skipped and a key already in [seen] keeps its row. *)
Definition see (seen : ODict.t string row) (r : row) : ODict.t string row :=
  let key := row_key r in
  if str_empty key then seen
  else if negb (ODict.mem key seen) then ODict.set key r seen
  else seen.

Section Collect.
Context {Page : Type}.

(** The page is the state the loop works on. [extractor(page)] reads rows
    off the page, [page.mouse.wheel(0, 2200)] scrolls it and
    [page.wait_for_timeout(ms)] lets it render. *)
Variable extractor : Page -> list row * Page.
Variable wheel : Page -> Page.
Variable wait_for_timeout : Z -> Page -> Page.

(** [for _ in range(n)]: one extraction per turn, the limit is compared
    with [len(seen)] right after it, and only a turn that does not break
    scrolls and waits. *)
Fixpoint scroll_loop (n : nat) (limit pause_ms : Z)
    (seen : ODict.t string row) (page : Page) : ODict.t string row * Page :=
  match n with
  | O => (seen, page)
  | S n' =>
      let '(rows, page) := extractor page in
      let seen := fold_left see rows seen in
      if limit <=? Z.of_nat (length seen) then (seen, page)
      else scroll_loop n' limit pause_ms seen
             (wait_for_timeout pause_ms (wheel page))
  end.

(** [_collect_with_scroll(page, extractor, limit, max_scrolls, pause_ms)]:
    the rows returned and the page as the call leaves it. *)
Definition _collect_with_scroll (page : Page) (limit max_scrolls pause_ms : Z)
  : list row * Page :=
  let '(seen, page) :=
    scroll_loop (Z.to_nat max_scrolls) limit pause_ms ODict.empty page in
  (slice_to limit (ODict.values seen), page).

(** The rows handed out by the first [k] extractions of a call that starts
    on [page] and scrolls after each of them, in the order the loop meets
    them, and the page after [k] such turns. *)
Fixpoint extracted (k : nat) (pause_ms : Z) (page : Page) : list row :=
  match k with
  | O => []
  | S k' =>
      let '(rows, page) := extractor page in
      rows ++ extracted k' pause_ms (wait_for_timeout pause_ms (wheel page))
  end.

Fixpoint turned (k : nat) (pause_ms : Z) (page : Page) : Page :=
  match k with
  | O => page
  | S k' =>
      turned k' pause_ms (wait_for_timeout pause_ms (wheel (snd (extractor page))))
  end.

End Collect.

(** The unique rows the loop holds after it has met [rows]. *)
Definition unique_rows (rows : list row) : list row :=
  ODict.values (fold_left see rows ODict.empty).

(** The result as the specification words it: rows lacking a key are
    discarded, and of the rows with one key only the first is kept, at the
    place where the key was first seen. *)
Fixpoint first_occurrences (rows : list row) : list row :=
  match rows with
  | [] => []
  | r :: rest =>
      r :: filter (fun r' => row_key r' <> row_key r) (first_occurrences rest)
  end.

Definition keyed_first_seen (rows : list row) : list row :=
  first_occurrences (filter (fun r => row_key r <> "") rows).

(** The first row of [rows] filed under [key], with its position. *)
Definition first_with_key (key : string) (rows : list row) : option (nat * row) :=
  list_find (fun r => row_key r = key) rows.

(** What the loop keeps in [seen]: every entry is filed under the key of
    its row, no key is empty and no key occurs twice. *)
Definition seen_inv (seen : ODict.t string row) : Prop :=
  NoDup (ODict.keys seen)
  /\ Forall (fun kv => row_key kv.2 = kv.1 /\ kv.1 <> "") seen.

End Harvester.

(** ** The paginated read endpoints *)

Module Endpoints.

Import Harvester.

(** The parsed command line of a read endpoint. [--limit] has [type=int]. *)
Record Args : Type := {
  a_username : option string;
  a_keyword : option string;
  a_query : option string;
  a_tab : option string;
  a_tweet_id : option string;
  a_limit : Z
}.

(** [(value or "")] for an argument that may be [None]. *)
Definition or_empty (value : option string) : string :=
  match value with
  | Some s => s
  | None => ""
  end.

Definition _normalize_handle (value : option string) : string :=
  let handle := strip (or_empty value) in
  if startswith handle "@"
  then match handle with String _ rest => rest | EmptyString => handle end
  else handle.

(** [s.lower()], as far as the program looks at it: the result is only
    compared with ["top"] and ["latest"], and the letters of these words
    are the lower case of their ASCII capitals and of no other character,
    so it is enough to lower the ASCII letters. *)
Definition lower_ascii (a : ascii) : ascii :=
  let n := nat_of_ascii a in
  if ((65 <=? n) && (n <=? 90))%nat then ascii_of_nat (n + 32) else a.

Fixpoint lower (s : string) : string :=
  match s with
  | EmptyString => EmptyString
  | String a rest => String (lower_ascii a) (lower rest)
  end.

Inductive extractor_name : Type :=
| ExtractTweets
| ExtractNotifications
| ExtractUsers
| ExtractTrends
| ExtractSpaces.

(** What an endpoint asks of the browser once its arguments are checked: the
    address it opens, the wait after loading, and the extractor, limit and
    [max_scrolls] it passes to [_collect_with_scroll]. Every [_run_*]
    function below is written as the part that checks the arguments and
    computes this call, followed by the steps all of them share, [harvest]. *)
Record HarvestCall : Type := {
  hc_url : string;
  hc_wait : Z;
  hc_extractor : extractor_name;
  hc_limit : Z;
  hc_max_scrolls : Z
}.

Section Calls.

(** [urllib.parse.quote] *)
Variable quote : string -> string.

(** [_run_user_last_tweets], up to its call of the harvester. *)
Definition user_last_tweets_call (args : Args) : result HarvestCall :=
  let username := _normalize_handle (a_username args) in
  if str_empty username then Raise (CliError "--username is required.")
  else
    let limit := Z.max 1 (Z.min (a_limit args) 200) in
    Ok {| hc_url := "https://x.com/" +:+ username; hc_wait := 900;
          hc_extractor := ExtractTweets; hc_limit := limit;
          hc_max_scrolls := 14 |}.

(** [_run_home_timeline], up to its call of the harvester. *)
Definition home_timeline_call (args : Args) : result HarvestCall :=
  let limit := Z.max 1 (Z.min (a_limit args) 200) in
  Ok {| hc_url := "https://x.com/home"; hc_wait := 900;
        hc_extractor := ExtractTweets; hc_limit := limit;
        hc_max_scrolls := 20 |}.

(** [_run_notifications_list], up to its call of the harvester. *)
Definition notifications_list_call (args : Args) : result HarvestCall :=
  let limit := Z.max 1 (Z.min (a_limit args) 300) in
  Ok {| hc_url := "https://x.com/notifications"; hc_wait := 900;
        hc_extractor := ExtractNotifications; hc_limit := limit;
        hc_max_scrolls := 16 |}.

(** [_run_user_connections], up to its call of the harvester. *)
Definition user_connections_call (args : Args) (mode : string)
  : result HarvestCall :=
  let username := _normalize_handle (a_username args) in
  if str_empty username then Raise (CliError "--username is required.")
  else
    let limit := Z.max 1 (Z.min (a_limit args) 500) in
    let suffix := if String.eqb mode "followers" then "followers" else "following" in
    Ok {| hc_url := "https://x.com/" +:+ username +:+ "/" +:+ suffix;
          hc_wait := 900; hc_extractor := ExtractUsers; hc_limit := limit;
          hc_max_scrolls := 18 |}.

(** [_run_search_user], up to its call of the harvester. *)
Definition search_user_call (args : Args) : result HarvestCall :=
  let keyword := strip (or_empty (a_keyword args)) in
  if str_empty keyword then Raise (CliError "--keyword is required.")
  else
    let limit := Z.max 1 (Z.min (a_limit args) 200) in
    let encoded := quote keyword in
    Ok {| hc_url := "https://x.com/search?q=" +:+ encoded
                    +:+ "&src=typed_query&f=user";
          hc_wait := 900; hc_extractor := ExtractUsers; hc_limit := limit;
          hc_max_scrolls := 16 |}.

(** [_run_advanced_search], up to its call of the harvester. *)
Definition advanced_search_call (args : Args) : result HarvestCall :=
  let query := strip (or_empty (a_query args)) in
  if str_empty query then Raise (CliError "--query is required.")
  else
    let limit := Z.max 1 (Z.min (a_limit args) 200) in
    let tab := lower (strip (match a_tab args with
                             | Some t => if str_empty t then "latest" else t
                             | None => "latest"
                             end)) in
    if negb (String.eqb tab "top" || String.eqb tab "latest")
    then Raise (CliError "--tab must be one of: top, latest")
    else
      let encoded := quote query in
      let f_param := if String.eqb tab "latest" then "live" else "top" in
      Ok {| hc_url := "https://x.com/search?q=" +:+ encoded
                      +:+ "&src=typed_query&f=" +:+ f_param;
            hc_wait := 900; hc_extractor := ExtractTweets; hc_limit := limit;
            hc_max_scrolls := 18 |}.

(** [_run_tweet_replies], up to its call of the harvester: it asks for two
    rows more than its clamped limit and cuts the replies down to the limit
    afterwards, see [tweet_replies_keep]. *)
Definition tweet_replies_call (args : Args) : result HarvestCall :=
  let tweet_id := strip (or_empty (a_tweet_id args)) in
  if str_empty tweet_id then Raise (CliError "--tweet-id is required.")
  else
    let limit := Z.max 1 (Z.min (a_limit args) 200) in
    Ok {| hc_url := "https://x.com/i/web/status/" +:+ tweet_id; hc_wait := 900;
          hc_extractor := ExtractTweets; hc_limit := limit + 2;
          hc_max_scrolls := 18 |}.

(** [[row for row in tweets if str(row.get("tweet_id") or "") != tweet_id][:limit]] *)
Definition tweet_replies_keep (args : Args) (tweets : list row) : list row :=
  let tweet_id := strip (or_empty (a_tweet_id args)) in
  let limit := Z.max 1 (Z.min (a_limit args) 200) in
  slice_to limit
    (List.filter
       (fun r => negb (String.eqb (str (or_ (get r "tweet_id") (VStr ""))) tweet_id))
       tweets).

(** [_run_tweet_quotes], up to its call of the harvester. *)
Definition tweet_quotes_call (args : Args) : result HarvestCall :=
  let tweet_id := strip (or_empty (a_tweet_id args)) in
  if str_empty tweet_id then Raise (CliError "--tweet-id is required.")
  else
    let limit := Z.max 1 (Z.min (a_limit args) 200) in
    Ok {| hc_url := "https://x.com/i/web/status/" +:+ tweet_id +:+ "/quotes";
          hc_wait := 900; hc_extractor := ExtractTweets; hc_limit := limit;
          hc_max_scrolls := 18 |}.

(** [_run_tweet_retweeters], up to its call of the harvester. *)
Definition tweet_retweeters_call (args : Args) : result HarvestCall :=
  let tweet_id := strip (or_empty (a_tweet_id args)) in
  if str_empty tweet_id then Raise (CliError "--tweet-id is required.")
  else
    let limit := Z.max 1 (Z.min (a_limit args) 400) in
    Ok {| hc_url := "https://x.com/i/web/status/" +:+ tweet_id +:+ "/retweets";
          hc_wait := 900; hc_extractor := ExtractUsers; hc_limit := limit;
          hc_max_scrolls := 18 |}.

(** [_run_tweet_thread_context], up to its call of the harvester. *)
Definition tweet_thread_context_call (args : Args) : result HarvestCall :=
  let tweet_id := strip (or_empty (a_tweet_id args)) in
  if str_empty tweet_id then Raise (CliError "--tweet-id is required.")
  else
    let limit := Z.max 1 (Z.min (a_limit args) 200) in
    Ok {| hc_url := "https://x.com/i/web/status/" +:+ tweet_id; hc_wait := 900;
          hc_extractor := ExtractTweets; hc_limit := limit;
          hc_max_scrolls := 20 |}.

(** [_run_trends], up to its call of the harvester. *)
Definition trends_call (args : Args) : result HarvestCall :=
  let limit := Z.max 1 (Z.min (a_limit args) 100) in
  Ok {| hc_url := "https://x.com/explore/tabs/trending"; hc_wait := 1000;
        hc_extractor := ExtractTrends; hc_limit := limit;
        hc_max_scrolls := 6 |}.

(** [_run_spaces_live], up to its call of the harvester. *)
Definition spaces_live_call (args : Args) : result HarvestCall :=
  let limit := Z.max 1 (Z.min (a_limit args) 100) in
  Ok {| hc_url := "https://x.com/i/spaces"; hc_wait := 1000;
        hc_extractor := ExtractSpaces; hc_limit := limit;
        hc_max_scrolls := 8 |}.

(** The endpoints that page through a view, as [_dispatch] names them. *)
Inductive endpoint : Type :=
| user_last_tweets
| home_timeline
| notifications_list
| user_followers
| user_followings
| search_user
| advanced_search
| tweet_replies
| tweet_quotes
| tweet_retweeters
| tweet_thread_context
| trends
| spaces_live.

Definition call_of (e : endpoint) (args : Args) : result HarvestCall :=
  match e with
  | user_last_tweets => user_last_tweets_call args
  | home_timeline => home_timeline_call args
  | notifications_list => notifications_list_call args
  | user_followers => user_connections_call args "followers"
  | user_followings => user_connections_call args "followings"
  | search_user => search_user_call args
  | advanced_search => advanced_search_call args
  | tweet_replies => tweet_replies_call args
  | tweet_quotes => tweet_quotes_call args
  | tweet_retweeters => tweet_retweeters_call args
  | tweet_thread_context => tweet_thread_context_call args
  | trends => trends_call args
  | spaces_live => spaces_live_call args
  end.

(** The cap each endpoint puts on [--limit]. *)
Definition cap_of (e : endpoint) : Z :=
  match e with
  | user_last_tweets | home_timeline | search_user | advanced_search
  | tweet_replies | tweet_quotes | tweet_thread_context => 200
  | notifications_list => 300
  | user_followers | user_followings => 500
  | tweet_retweeters => 400
  | trends | spaces_live => 100
  end.

(** The browser session an endpoint runs in. [open_page] stands for
    [_with_page(args)] followed by [_require_logged_in(page)], which can
    raise. The operations on the open page are those of a run in which
    Playwright answers every call. *)
Context {Page : Type}.
Variable open_page : result Page.
Variable goto : string -> Page -> Page.
Variable wait_for_timeout : Z -> Page -> Page.
Variable wheel : Page -> Page.
Variable extract : extractor_name -> Page -> list row * Page.

(** The part the endpoints share: open the session, load the address, wait,
    and collect with the default pause of 750 ms. *)
Definition harvest (c : HarvestCall) : result (list row) :=
  match open_page with
  | Raise e => Raise e
  | Ok page =>
      let page := wait_for_timeout (hc_wait c) (goto (hc_url c) page) in
      Ok (fst (_collect_with_scroll (extract (hc_extractor c)) wheel
                 wait_for_timeout page (hc_limit c) (hc_max_scrolls c) 750))
  end.

(** The rows an endpoint returns. *)
Definition run (e : endpoint) (args : Args) : result (list row) :=
  match call_of e args with
  | Raise err => Raise err
  | Ok c =>
      match harvest c with
      | Raise err => Raise err
      | Ok rows =>
          match e with
          | tweet_replies => Ok (tweet_replies_keep args rows)
          | _ => Ok rows
          end
      end
  end.

End Calls.

End Endpoints.

(** ** The stream supervisor *)

Module Stream.

(** The PID marker as [int(text.strip())] reads it: an integer, or a text
    that makes [int] raise [ValueError]. *)
Inductive pid_text : Type :=
| PidText (pid : Z)
| PidInvalid.

(** A JSON document. *)
#[local] Unset Elimination Schemes.
Inductive json : Type :=
| JNull
| JBool (b : bool)
| JInt (z : Z)
| JStr (s : string)
| JList (l : list json)
| JDict (d : list (string * json)).
#[local] Set Elimination Schemes.

(** The metadata record as [json.loads] reads it: a document, or a text
    that makes it raise. *)
Inductive meta_text : Type :=
| MetaJson (j : json)
| MetaCorrupt.

(** The two artifacts under the state directory; [None] is a missing file. *)
Record Files : Type := {
  pid_file : option pid_text;
  meta_file : option meta_text
}.

Inductive signal : Type :=
| SIG0
| SIGTERM
| SIGKILL.

(** What a write to one of the two artifacts does: it writes the text, or
    it raises. A write that raises before the file is opened leaves the
    file as it was; one that raises after that ([write_text] opens the
    file for writing and then encodes and writes) leaves it empty. *)
Inductive write_outcome : Type :=
| Written
| WriteFailed (err : string) (emptied : bool).

(** What the supervisor asks of the operating system. An operation that
    can raise gives the name of the exception, which is never a
    [CliError]. What the two artifacts hold is kept in [Files]; the system
    only tells whether a write or an unlink goes through. *)
Class System (OS : Type) : Type := {
  (** [shutil.which("ffmpeg")] finds something *)
  which_ffmpeg : OS -> bool;
  (** the system call of [os.kill(pid, sig)] for a pid that fits a C int;
      [None] when it raises [OSError] *)
  os_kill : Z -> signal -> OS -> option OS;
  (** [str(_stream_log_file())] *)
  stream_log_file : string;
  (** [open(_stream_log_file(), "a", encoding="utf-8")] *)
  open_log : OS -> option string;
  (** [subprocess.Popen(cmd, ..., start_new_session=True)]: the pid of the
      child, or the message of the exception *)
  popen : list string -> OS -> (Z + string) * OS;
  (** [proc.poll()]: the return code of a child that has exited *)
  proc_poll : Z -> OS -> option Z;
  (** [time.sleep], in milliseconds *)
  time_sleep : Z -> OS -> OS;
  (** [time.time()], in milliseconds *)
  time_time : OS -> Z;
  (** [_stream_pid_file().write_text(str(pid), encoding="utf-8")] *)
  write_pid : Z -> OS -> write_outcome;
  (** [_stream_meta_file().write_text(json.dumps(meta, ensure_ascii=False),
      encoding="utf-8")] *)
  write_meta : json -> OS -> write_outcome;
  (** [pid_path.unlink(missing_ok=True)] *)
  unlink_pid : OS -> option string;
  (** [_stream_meta_file().unlink(missing_ok=True)] *)
  unlink_meta : OS -> option string
}.

Record StreamArgs : Type := {
  s_input : option string;
  s_rtmp_url : option string;
  s_stream_key : option string;
  s_loop : bool;
  s_preset : string;
  s_video_bitrate : string;
  s_audio_bitrate : string;
  s_buffer_size : string
}.

(** The dict [_run_stream_status] returns; a key that is not set is [None]. *)
Record Status : Type := {
  st_running : bool;
  st_error : option string;
  st_pid : option Z;
  st_meta : option json
}.

(** The dict [_run_stream_start] returns. *)
Record Started : Type := {
  started : bool;
  started_pid : Z;
  started_target : string
}.

(** The dict [_run_stream_stop] returns. *)
Record Stopped : Type := {
  stopped : bool;
  stopped_message : option string;
  stopped_pid : option Z
}.

Definition _stream_target_url (rtmp_url stream_key : option string)
  : result string :=
  let base := strip (Endpoints.or_empty rtmp_url) in
  if str_empty base then Raise (CliError "--rtmp-url is required.")
  else
    let key := strip (Endpoints.or_empty stream_key) in
    if str_empty key then Ok base
    else if endswith base "/" then Ok (base +:+ key)
    else Ok (base +:+ "/" +:+ key).

(** The ffmpeg command line of [_run_stream_start]. *)
Definition ffmpeg_cmd (args : StreamArgs) (input_value target : string)
  : list string :=
  ["ffmpeg"; "-hide_banner"; "-loglevel"; "warning"]
  ++ (if s_loop args then ["-stream_loop"; "-1"] else [])
  ++ ["-re"; "-i"; input_value; "-c:v"; "libx264"; "-preset"; s_preset args;
      "-b:v"; s_video_bitrate args; "-maxrate"; s_video_bitrate args;
      "-bufsize"; s_buffer_size args; "-pix_fmt"; "yuv420p"; "-g"; "60";
      "-c:a"; "aac"; "-b:a"; s_audio_bitrate args; "-ar"; "44100";
      "-f"; "flv"; target].

(** The metadata dict written next to the PID marker. *)
Definition stream_meta (pid started_at : Z) (input_value target : string)
    (cmd : list string) : json :=
  JDict [("pid", JInt pid); ("started_at", JInt started_at);
         ("input", JStr input_value); ("target", JStr target);
         ("command", JList (map JStr cmd))].

(** The error [_run_stream_start] raises when a stream is running. *)
Definition already_running (pid : Z) : exn :=
  CliError ("Stream already running (pid=" +:+ pretty pid +:+ ").").

(** Whether an outcome of [_run_stream_start] is the already-running
    error, told by its message. *)
Definition is_already_running (r : result Started) : bool :=
  match r with
  | Raise (CliError msg) => startswith msg "Stream already running"
  | Raise (OtherError _) => false
  | Ok _ => false
  end.

(** The stop loop polls every 0.25 s until a deadline 8 s away, so it makes
    at most 32 sleeps; one more turn sees the deadline passed. *)
Definition stop_polls : nat := 33.

(** Whether a number fits a C [int], the type [os.kill] takes a pid in. *)
Definition fits_c_int (n : Z) : bool := (- 2 ^ 31 <=? n) && (n <? 2 ^ 31).

Section Supervisor.
Context {OS : Type} `{System OS}.

Definition _ensure_ffmpeg (os : OS) : result unit :=
  if negb (which_ffmpeg os)
  then Raise (CliError "ffmpeg is required for live streaming. Install ffmpeg first.")
  else Ok tt.

(** [os.kill(pid, sig)]: a pid that does not fit a C int raises
    [OverflowError] before anything is asked of the system. *)
Definition kill (pid : Z) (sig : signal) (os : OS) : result OS :=
  if fits_c_int pid then
    match os_kill pid sig os with
    | Some os => Ok os
    | None => Raise (OtherError "OSError")
    end
  else Raise (OtherError "OverflowError").

(** [_pid_running]: only the [OSError] of [os.kill(pid, 0)] is caught. *)
Definition _pid_running (pid : Z) (os : OS) : result bool :=
  if fits_c_int pid then
    match os_kill pid SIG0 os with
    | Some _ => Ok true
    | None => Ok false
    end
  else Raise (OtherError "OverflowError").

Definition _run_stream_status (fs : Files) (os : OS) : result Status :=
  match pid_file fs with
  | None =>
      Ok {| st_running := false; st_error := None; st_pid := None;
            st_meta := None |}
  | Some PidInvalid =>
      Ok {| st_running := false; st_error := Some "Invalid pid file";
            st_pid := None; st_meta := None |}
  | Some (PidText pid) =>
      match _pid_running pid os with
      | Raise err => Raise err
      | Ok running =>
          let meta :=
            match meta_file fs with
            | Some (MetaJson (JDict d)) => JDict d
            | Some (MetaJson _) => JDict []
            | Some MetaCorrupt => JDict []
            | None => JDict []
            end in
          Ok {| st_running := running; st_error := None; st_pid := Some pid;
                st_meta := Some meta |}
      end
  end.

(** [str(status.get('pid'))] inside the message of the already-running
    error. *)
Definition pid_repr (pid : option Z) : string :=
  match pid with
  | Some p => pretty p
  | None => "None"
  end.

(** The marker after a write of [pid] with the given outcome. *)
Definition pid_written (pid : Z) (outcome : write_outcome) (fs : Files)
  : Files :=
  match outcome with
  | Written => {| pid_file := Some (PidText pid); meta_file := meta_file fs |}
  | WriteFailed _ true =>
      {| pid_file := Some PidInvalid; meta_file := meta_file fs |}
  | WriteFailed _ false => fs
  end.

(** The metadata record after a write of [meta] with the given outcome. *)
Definition meta_written (meta : json) (outcome : write_outcome) (fs : Files)
  : Files :=
  match outcome with
  | Written => {| pid_file := pid_file fs; meta_file := Some (MetaJson meta) |}
  | WriteFailed _ true =>
      {| pid_file := pid_file fs; meta_file := Some MetaCorrupt |}
  | WriteFailed _ false => fs
  end.

(** [_run_stream_start]: what it returns or raises, and the files and the
    system as it leaves them. *)
Definition _run_stream_start (args : StreamArgs) (fs : Files) (os : OS)
  : result Started * Files * OS :=
  match _ensure_ffmpeg os with
  | Raise e => (Raise e, fs, os)
  | Ok _ =>
      match _run_stream_status fs os with
      | Raise e => (Raise e, fs, os)
      | Ok status =>
          if st_running status
          then (Raise (CliError ("Stream already running (pid="
                                 +:+ pid_repr (st_pid status) +:+ ").")),
                fs, os)
          else
            match _stream_target_url (s_rtmp_url args) (s_stream_key args) with
            | Raise e => (Raise e, fs, os)
            | Ok target =>
                let input_value := strip (Endpoints.or_empty (s_input args)) in
                if str_empty input_value
                then (Raise (CliError
                        "--input is required (video file/device/stream source)."),
                      fs, os)
                else
                  let cmd := ffmpeg_cmd args input_value target in
                  match open_log os with
                  | Some err => (Raise (OtherError err), fs, os)
                  | None =>
                      match popen cmd os with
                      | (inr err, os) =>
                          (Raise (CliError ("Failed to launch ffmpeg: "
                                            +:+ err)), fs, os)
                      | (inl pid, os) =>
                          let os := time_sleep 2000 os in
                          match proc_poll pid os with
                          | Some returncode =>
                              (Raise (CliError
                                        ("ffmpeg exited immediately with code "
                                         +:+ pretty returncode +:+ ". See "
                                         +:+ stream_log_file)), fs, os)
                          | None =>
                              let marker := write_pid pid os in
                              let fs := pid_written pid marker fs in
                              match marker with
                              | WriteFailed err _ =>
                                  (Raise (OtherError err), fs, os)
                              | Written =>
                                  let meta :=
                                    stream_meta pid (time_time os / 1000)
                                      input_value target cmd in
                                  let record := write_meta meta os in
                                  let fs := meta_written meta record fs in
                                  match record with
                                  | WriteFailed err _ =>
                                      (Raise (OtherError err), fs, os)
                                  | Written =>
                                      (Ok {| started := true;
                                             started_pid := pid;
                                             started_target := target |},
                                       fs, os)
                                  end
                              end
                          end
                      end
                  end
            end
      end
  end.

(** [while time.time() < deadline: if not _pid_running(pid): break;
    time.sleep(0.25)], with the exception that ends it, if any. *)
Fixpoint wait_exit (polls : nat) (pid deadline : Z) (os : OS)
  : option exn * OS :=
  match polls with
  | O => (None, os)
  | S polls' =>
      if time_time os <? deadline then
        match _pid_running pid os with
        | Raise err => (Some err, os)
        | Ok false => (None, os)
        | Ok true => wait_exit polls' pid deadline (time_sleep 250 os)
        end
      else (None, os)
  end.

(** Both artifacts unlinked. *)
Definition cleared : Files := {| pid_file := None; meta_file := None |}.

(** [pid_path.unlink(missing_ok=True);
    _stream_meta_file().unlink(missing_ok=True)], with the exception that
    ends it, if any. *)
Definition unlink_both (fs : Files) (os : OS) : option exn * Files :=
  match unlink_pid os with
  | Some err => (Some (OtherError err), fs)
  | None =>
      let fs := {| pid_file := None; meta_file := meta_file fs |} in
      match unlink_meta os with
      | Some err => (Some (OtherError err), fs)
      | None => (None, {| pid_file := pid_file fs; meta_file := None |})
      end
  end.

(** [_run_stream_stop]: what it returns or raises, and the files and the
    system as it leaves them. *)
Definition _run_stream_stop (fs : Files) (os : OS)
  : result Stopped * Files * OS :=
  match pid_file fs with
  | None =>
      (Ok {| stopped := false; stopped_message := Some "No running stream.";
             stopped_pid := None |}, fs, os)
  | Some PidInvalid => (Raise (OtherError "ValueError"), fs, os)
  | Some (PidText pid) =>
      match _pid_running pid os with
      | Raise err => (Raise err, fs, os)
      | Ok false =>
          match unlink_both fs os with
          | (Some err, fs) => (Raise err, fs, os)
          | (None, fs) =>
              (Ok {| stopped := false;
                     stopped_message := Some "No running stream process found.";
                     stopped_pid := None |}, fs, os)
          end
      | Ok true =>
          match kill pid SIGTERM os with
          | Raise err => (Raise err, fs, os)
          | Ok os =>
              let deadline := time_time os + 8000 in
              match wait_exit stop_polls pid deadline os with
              | (Some err, os) => (Raise err, fs, os)
              | (None, os) =>
                  let killed :=
                    match _pid_running pid os with
                    | Raise err => Raise err
                    | Ok true => kill pid SIGKILL os
                    | Ok false => Ok os
                    end in
                  match killed with
                  | Raise err => (Raise err, fs, os)
                  | Ok os =>
                      match unlink_both fs os with
                      | (Some err, fs) => (Raise err, fs, os)
                      | (None, fs) =>
                          (Ok {| stopped := true; stopped_message := None;
                                 stopped_pid := Some pid |}, fs, os)
                      end
                  end
              end
          end
      end
  end.

End Supervisor.

End Stream.

(** ** Sample inputs *)

Module Samples.

Import Cookies.

(** A logged-in browser profile with one session cookie, and a cookie
    document saved by an earlier login. *)
Definition fresh_jar : list JarCookie :=
  [{| jc_domain := Some ".x.com"; jc_name := Some "auth_token";
      jc_value := Some "fresh"; jc_path := Some "/"; jc_secure := true;
      jc_expires := None |}].

Definition saved_cookie : dict :=
  [("name", VStr "auth_token"); ("value", VStr "saved");
   ("domain", VStr ".x.com"); ("path", VStr "/")].

Definition saved_only_cookie : dict :=
  [("name", VStr "ct0"); ("value", VStr "csrf");
   ("domain", VStr ".twitter.com"); ("path", VStr "/")].

Definition no_files (path : string) : bool + string := inl false.

(** [a / b] for a relative [b] and paths without redundant parts. *)
Definition slash (a b : string) : string := a +:+ "/" +:+ b.

Definition env_both : Env :=
  {| bc3_installed := true; playwright_installed := true;
     expanduser := fun path => inl path; joinpath := slash;
     is_file := no_files; path_exists := no_files;
     bc3_loader := fun _ _ => inl fresh_jar;
     saved_file := FileList [ItemDict saved_cookie; ItemDict saved_only_cookie];
     launch_context := None; add_cookies := fun _ => None;
     new_page := None |}.

Definition env_saved_only : Env :=
  {| bc3_installed := true; playwright_installed := true;
     expanduser := fun path => inl path; joinpath := slash;
     is_file := no_files; path_exists := no_files;
     bc3_loader := fun _ _ => inr "no profile";
     saved_file := FileList [ItemDict saved_cookie; ItemDict saved_only_cookie];
     launch_context := None; add_cookies := fun _ => None;
     new_page := None |}.

(** The machine of [env_both] asked for the profile of a user it does not
    know: [Path("~nosuchuser/profile").expanduser()] raises
    [RuntimeError]. *)
Definition env_unknown_user : Env :=
  {| bc3_installed := true; playwright_installed := true;
     expanduser := fun path => inr "RuntimeError"; joinpath := slash;
     is_file := no_files; path_exists := no_files;
     bc3_loader := fun _ _ => inl fresh_jar;
     saved_file := FileList [ItemDict saved_cookie; ItemDict saved_only_cookie];
     launch_context := None; add_cookies := fun _ => None;
     new_page := None |}.

Definition unknown_user_args : BrowserArgs :=
  {| browser := "chrome"; chrome_profile := Some "~nosuchuser/profile";
     chrome_profile_name := "Default" |}.

Definition chrome_args : BrowserArgs :=
  {| browser := "chrome"; chrome_profile := None;
     chrome_profile_name := "Default" |}.

(** A timeline that shows three new tweets per scroll position. The page
    records how often it was scrolled and how often rows were read. *)
Record Timeline : Type := {
  scrolls : nat;
  extractions : nat
}.

Definition tweet (n : nat) (text : string) : Harvester.row :=
  [("key", VStr ("t" +:+ pretty n)); ("text", VStr text)].

Definition fresh_timeline : Timeline := {| scrolls := 0; extractions := 0 |}.

Definition timeline_wheel (p : Timeline) : Timeline :=
  {| scrolls := S (scrolls p); extractions := extractions p |}.

Definition timeline_wait (ms : Z) (p : Timeline) : Timeline := p.

Definition read (p : Timeline) : Timeline :=
  {| scrolls := scrolls p; extractions := S (extractions p) |}.

Definition three_per_cycle (p : Timeline) : list Harvester.row * Timeline :=
  ([tweet (3 * scrolls p) "a"; tweet (3 * scrolls p + 1) "b";
    tweet (3 * scrolls p + 2) "c"], read p).

(** A static view of five rows with distinct keys. *)
Definition five_rows : list Harvester.row :=
  [tweet 1 "one"; tweet 2 "two"; tweet 3 "three"; tweet 4 "four";
   tweet 5 "five"].

Definition static_five (p : Timeline) : list Harvester.row * Timeline :=
  (five_rows, read p).

(** A view that repeats a key within one extraction and shows a keyless
    row, with payloads that change from one scroll position to the next. *)
Definition changing_payload (p : Timeline) : list Harvester.row * Timeline :=
  ([tweet 1 ("first seen at " +:+ pretty (scrolls p));
    [("text", VStr "no key")];
    tweet 2 "other";
    tweet 1 "duplicate"], read p).

(** An operating system with a table of live processes. A launch takes
    [next_pid]; the child stays alive unless [child_exit] gives the code it
    exits with at once. [meta_write] is what a write of the metadata record
    does and [meta_unlink] the exception its unlink raises, if any; the
    other file operations go through. *)
Record ToyOS : Type := {
  ffmpeg_on_path : bool;
  alive : list Z;
  clock : Z;
  next_pid : Z;
  launch_error : option string;
  child_exit : option Z;
  ignores_sigterm : bool;
  meta_write : Stream.write_outcome;
  meta_unlink : option string
}.

Definition is_alive (pid : Z) (os : ToyOS) : bool :=
  existsb (Z.eqb pid) (alive os).

Definition reap (pid : Z) (os : ToyOS) : ToyOS :=
  {| ffmpeg_on_path := ffmpeg_on_path os;
     alive := List.filter (fun p => negb (Z.eqb pid p)) (alive os);
     clock := clock os; next_pid := next_pid os;
     launch_error := launch_error os; child_exit := child_exit os;
     ignores_sigterm := ignores_sigterm os; meta_write := meta_write os;
     meta_unlink := meta_unlink os |}.

#[global] Instance toy_system : Stream.System ToyOS := {|
  Stream.which_ffmpeg os := ffmpeg_on_path os;
  Stream.os_kill pid sig os :=
    if is_alive pid os then
      match sig with
      | Stream.SIG0 => Some os
      | Stream.SIGTERM => Some (if ignores_sigterm os then os else reap pid os)
      | Stream.SIGKILL => Some (reap pid os)
      end
    else None;
  Stream.popen cmd os :=
    match launch_error os with
    | Some err => (inr err, os)
    | None =>
        (inl (next_pid os),
         {| ffmpeg_on_path := ffmpeg_on_path os;
            alive := match child_exit os with
                     | Some _ => alive os
                     | None => next_pid os :: alive os
                     end;
            clock := clock os; next_pid := next_pid os + 1;
            launch_error := launch_error os; child_exit := child_exit os;
            ignores_sigterm := ignores_sigterm os;
            meta_write := meta_write os; meta_unlink := meta_unlink os |})
    end;
  Stream.proc_poll pid os := if is_alive pid os then None else child_exit os;
  Stream.time_sleep ms os :=
    {| ffmpeg_on_path := ffmpeg_on_path os; alive := alive os;
       clock := clock os + ms; next_pid := next_pid os;
       launch_error := launch_error os; child_exit := child_exit os;
       ignores_sigterm := ignores_sigterm os; meta_write := meta_write os;
       meta_unlink := meta_unlink os |};
  Stream.time_time os := clock os;
  Stream.stream_log_file := "/opt/x-local/.state/x_stream.log";
  Stream.open_log os := None;
  Stream.write_pid pid os := Stream.Written;
  Stream.write_meta meta os := meta_write os;
  Stream.unlink_pid os := None;
  Stream.unlink_meta os := meta_unlink os
|}.

(** A machine on which a stream with pid 4242 is running. *)
Definition streaming_os : ToyOS :=
  {| ffmpeg_on_path := true; alive := [4242]; clock := 1700000000000;
     next_pid := 5000; launch_error := None; child_exit := None;
     ignores_sigterm := false; meta_write := Stream.Written;
     meta_unlink := None |}.

(** The same machine after ffmpeg was removed from the search path. *)
Definition streaming_os_without_ffmpeg : ToyOS :=
  {| ffmpeg_on_path := false; alive := [4242]; clock := 1700000000000;
     next_pid := 5000; launch_error := None; child_exit := None;
     ignores_sigterm := false; meta_write := Stream.Written;
     meta_unlink := None |}.

(** A machine on which nothing streams. *)
Definition idle_os : ToyOS :=
  {| ffmpeg_on_path := true; alive := []; clock := 1700000000000;
     next_pid := 5000; launch_error := None; child_exit := None;
     ignores_sigterm := false; meta_write := Stream.Written;
     meta_unlink := None |}.

(** The idle machine on which the metadata record cannot be encoded, as
    with an [--input] that holds a lone surrogate: the write opens the file
    and raises [UnicodeEncodeError]. *)
Definition unencodable_os : ToyOS :=
  {| ffmpeg_on_path := true; alive := []; clock := 1700000000000;
     next_pid := 5000; launch_error := None; child_exit := None;
     ignores_sigterm := false;
     meta_write := Stream.WriteFailed "UnicodeEncodeError" true;
     meta_unlink := None |}.

(** The idle machine on which the metadata record cannot be unlinked. *)
Definition protected_os : ToyOS :=
  {| ffmpeg_on_path := true; alive := []; clock := 1700000000000;
     next_pid := 5000; launch_error := None; child_exit := None;
     ignores_sigterm := false; meta_write := Stream.Written;
     meta_unlink := Some "PermissionError" |}.

Definition marker_4242 : Stream.Files :=
  {| Stream.pid_file := Some (Stream.PidText 4242);
     Stream.meta_file := Some (Stream.MetaJson (Stream.JDict [("pid", Stream.JInt 4242)])) |}.

Definition marker_without_meta : Stream.Files :=
  {| Stream.pid_file := Some (Stream.PidText 4242); Stream.meta_file := None |}.

(** A marker written by hand with a number no process can have. *)
Definition marker_too_large : Stream.Files :=
  {| Stream.pid_file := Some (Stream.PidText 2147483648);
     Stream.meta_file := None |}.

Definition no_marker : Stream.Files :=
  {| Stream.pid_file := None; Stream.meta_file := None |}.

Definition stream_args : Stream.StreamArgs :=
  {| Stream.s_input := Some "clip.mp4";
     Stream.s_rtmp_url := Some "rtmp://live.x.com/app";
     Stream.s_stream_key := Some "key";
     Stream.s_loop := false; Stream.s_preset := "veryfast";
     Stream.s_video_bitrate := "4500k"; Stream.s_audio_bitrate := "128k";
     Stream.s_buffer_size := "9000k" |}.

(** [tweet_replies --tweet-id 1 --limit 200] *)
Definition replies_args : Endpoints.Args :=
  {| Endpoints.a_username := None; Endpoints.a_keyword := None;
     Endpoints.a_query := None; Endpoints.a_tab := None;
     Endpoints.a_tweet_id := Some "1"; Endpoints.a_limit := 200 |}.

(** [user_last_tweets --username @jack --limit -5] *)
Definition negative_limit_args : Endpoints.Args :=
  {| Endpoints.a_username := Some "@jack"; Endpoints.a_keyword := None;
     Endpoints.a_query := None; Endpoints.a_tab := None;
     Endpoints.a_tweet_id := None; Endpoints.a_limit := -5 |}.

End Samples.


(** ** Tweet lookup by id *)

Module TweetLookup.

Import Harvester.

(** [s.split(",")] *)
Fixpoint split_commas (s : string) : list string :=
  match s with
  | EmptyString => [EmptyString]
  | String a rest =>
      if Ascii.eqb a "," then EmptyString :: split_commas rest
      else
        match split_commas rest with
        | [] => [String a EmptyString]
        | piece :: pieces => String a piece :: pieces
        end
  end.

(** [[item.strip() for item in items if item.strip()]] *)
Definition stripped_nonblank (items : list string) : list string :=
  omap (fun item =>
          let s := strip item in if str_empty s then None else Some s) items.

(** [--tweet-ids] is one comma-separated string, [--tweet-id] may be given
    several times. *)
Record LookupArgs : Type := {
  l_tweet_ids : option string;
  l_tweet_id : list string
}.

(** The list [ids] of [_run_get_tweet_by_ids]. *)
Definition requested_ids (args : LookupArgs) : list string :=
  let ids := [] in
  let ids :=
    match l_tweet_ids args with
    | Some s =>
        if str_empty s then ids else ids ++ stripped_nonblank (split_commas s)
    | None => ids
    end in
  match l_tweet_id args with
  | [] => ids
  | _ :: _ => ids ++ stripped_nonblank (l_tweet_id args)
  end.

(** One turn of the loop that fills [unique]; [seen] is a Python set. *)
Definition unique_step (st : list string * gset string) (item : string)
  : list string * gset string :=
  let '(unique, seen) := st in
  if bool_decide (item ∈ seen) then (unique, seen)
  else (unique ++ [item], {[item]} ∪ seen).

Definition unique_ids (ids : list string) : list string :=
  (fold_left unique_step ids ([], ∅)).1.

(** [exact or (rows[0] if rows else None)], where [exact] is the first row
    whose [str(row.get("tweet_id"))] is the requested id; an empty dict is
    false. *)
Definition exact_or_first (tweet_id : string) (rows : list row) : option row :=
  let exact :=
    List.find (fun row => String.eqb (str (get row "tweet_id")) tweet_id) rows in
  match exact with
  | Some ((_ :: _) as found) => Some found
  | Some [] | None =>
      match rows with
      | first :: _ => Some first
      | [] => None
      end
  end.

(** An entry of the list [tweets] that is returned. *)
Record Looked : Type := {
  requested_tweet_id : string;
  tweet : option row
}.

Section Lookup.
Context {Page : Type}.

(** [open_page] stands for [_with_page(args)] followed by
    [_require_logged_in(page)], which can raise. The operations on the open
    page are those of a run in which Playwright answers every call. *)
Variable open_page : result Page.
Variable goto : string -> Page -> Page.
Variable wait_for_timeout : Z -> Page -> Page.
Variable extract_tweets : Page -> list row * Page.

Definition lookup_step (st : list Looked * Page) (tweet_id : string)
  : list Looked * Page :=
  let '(tweets, page) := st in
  let page :=
    wait_for_timeout 800 (goto ("https://x.com/i/web/status/" +:+ tweet_id) page) in
  let '(rows, page) := extract_tweets page in
  (tweets ++ [{| requested_tweet_id := tweet_id;
                 tweet := exact_or_first tweet_id rows |}], page).

Definition _run_get_tweet_by_ids (args : LookupArgs) : result (list Looked) :=
  let unique := unique_ids (requested_ids args) in
  match unique with
  | [] => Raise (CliError "Provide --tweet-ids or --tweet-id.")
  | _ :: _ =>
      match open_page with
      | Raise err => Raise err
      | Ok page => Ok (fold_left lookup_step unique ([], page)).1
      end
  end.

End Lookup.

End TweetLookup.

(** ** The live search stream *)

Module LiveSearch.

Import Harvester.

Record LiveArgs : Type := {
  v_query : option string;
  v_duration : Z;
  v_interval : Z;
  v_max_events : Z
}.

(** [tweet_id or str(row.get("key") or "")] with
    [tweet_id = str(row.get("tweet_id") or "")] *)
Definition event_key (r : row) : string :=
  let tweet_id := str (or_ (get r "tweet_id") (VStr "")) in
  if str_empty tweet_id then str (or_ (get r "key") (VStr "")) else tweet_id.

(** The [for row in rows] loop: a row with a new key is stamped with
    [observed_at] and appended, and the loop breaks when [events] holds
    [max_events] rows. [now] is [int(time.time())]. *)
Fixpoint observe (rows : list row) (now max_events : Z)
    (seen : gset string) (events : list row) : gset string * list row :=
  match rows with
  | [] => (seen, events)
  | r :: rest =>
      let key := event_key r in
      if str_empty key || bool_decide (key ∈ seen)
      then observe rest now max_events seen events
      else
        let seen := {[key]} ∪ seen in
        let events := events ++ [ODict.set "observed_at" (VInt now) r] in
        if max_events <=? Z.of_nat (length events) then (seen, events)
        else observe rest now max_events seen events
  end.

(** What the loops keep: every event has a key that is in [seen] and is
    stamped, and no two events have the same key. *)
Definition events_inv (seen : gset string) (events : list row) : Prop :=
  (forall e, e ∈ events ->
     event_key e ∈ seen /\ event_key e <> ""
     /\ exists t, get e "observed_at" = VInt t)
  /\ NoDup (map event_key events).

(** What [_run_stream_live_search] returns. *)
Record Watched : Type := {
  w_query : string;
  w_duration : Z;
  w_interval : Z;
  w_events : list row
}.

Section Watch.

(** The page together with the clock. Time is kept in milliseconds and
    moves only when the world is acted on. [open_page] stands for
    [_with_page(args)] followed by [_require_logged_in(page)], which can
    raise; the operations on the open page are those of a run in which
    Playwright answers every call. *)
Context {World : Type}.
Variable quote : string -> string.
Variable open_page : World -> result World.
Variable goto : string -> World -> World.
Variable wait_for_timeout : Z -> World -> World.
Variable reload : World -> World.
Variable extract_tweets : World -> list row * World.
Variable time_ms : World -> Z.

(** [while time.time() < end_at and len(events) < max_events] *)
Fixpoint watch (turns : nat) (end_at interval max_events : Z)
    (seen : gset string) (events : list row) (w : World) : list row * World :=
  match turns with
  | O => (events, w)
  | S turns' =>
      if (time_ms w <? end_at) && (Z.of_nat (length events) <? max_events)
      then
        let '(rows, w) := extract_tweets w in
        let '(seen, events) :=
          observe rows (time_ms w / 1000) max_events seen events in
        if max_events <=? Z.of_nat (length events) then (events, w)
        else
          watch turns' end_at interval max_events seen events
            (wait_for_timeout (interval * 1000) (reload w))
      else (events, w)
  end.

(** Every turn that does not end the loop waits [interval] seconds, so
    within [duration] seconds there are at most [duration / interval + 1]
    turns; one more sees the end. *)
Definition watch_turns (duration interval : Z) : nat :=
  Z.to_nat (duration / interval) + 2.

Definition _run_stream_live_search (args : LiveArgs) (w : World)
  : result Watched * World :=
  let query := strip (Endpoints.or_empty (v_query args)) in
  if str_empty query then (Raise (CliError "--query is required."), w)
  else
    let duration := Z.max 5 (Z.min (v_duration args) 3600) in
    let interval := Z.max 2 (Z.min (v_interval args) 120) in
    let max_events := Z.max 1 (Z.min (v_max_events args) 1000) in
    let encoded := quote query in
    match open_page w with
    | Raise err => (Raise err, w)
    | Ok w =>
        let w :=
          wait_for_timeout 900
            (goto ("https://x.com/search?q=" +:+ encoded
                   +:+ "&src=typed_query&f=live") w) in
        let end_at := time_ms w + duration * 1000 in
        let '(events, w) :=
          watch (watch_turns duration interval) end_at interval max_events
            ∅ [] w in
        (Ok {| w_query := query; w_duration := duration;
               w_interval := interval; w_events := events |}, w)
    end.

End Watch.

End LiveSearch.

(** ** More sample inputs *)

Module MoreSamples.

Import Samples.

(** A search page that shows one new tweet after every reload, with a
    clock that only the waits move. *)
Record Ticker : Type := {
  ticks : Z;
  reloads : nat
}.

Definition ticker_extract (w : Ticker) : list Harvester.row * Ticker :=
  ([[("tweet_id", VStr (pretty (reloads w))); ("text", VStr "live")]], w).

Definition ticker_reload (w : Ticker) : Ticker :=
  {| ticks := ticks w; reloads := S (reloads w) |}.

Definition ticker_wait (ms : Z) (w : Ticker) : Ticker :=
  {| ticks := ticks w + ms; reloads := reloads w |}.

Definition ticker_start : Ticker := {| ticks := 0; reloads := 0 |}.

(** [stream_live_search --query rocq --duration 10 --interval 2
    --max-events 3] *)
Definition live_args : LiveSearch.LiveArgs :=
  {| LiveSearch.v_query := Some "rocq"; LiveSearch.v_duration := 10;
     LiveSearch.v_interval := 2; LiveSearch.v_max_events := 3 |}.

(** [get_tweet_by_ids --tweet-ids "7, 8,,7" --tweet-id 9 --tweet-id 8] *)
Definition lookup_args : TweetLookup.LookupArgs :=
  {| TweetLookup.l_tweet_ids := Some "7, 8,,7";
     TweetLookup.l_tweet_id := ["9"; "8"] |}.

(** The cookies of a browser context after a login: two session cookies
    and an element that is no dict. *)
Definition login_context : list Cookies.raw_item :=
  [Cookies.ItemDict saved_cookie; Cookies.ItemOther;
   Cookies.ItemDict saved_only_cookie].

(** A machine without a readable browser profile, after that login saved
    its session. *)
Definition env_after_login : Cookies.Env :=
  {| Cookies.bc3_installed := true; Cookies.playwright_installed := true;
     Cookies.expanduser := fun path => inl path; Cookies.joinpath := slash;
     Cookies.is_file := no_files; Cookies.path_exists := no_files;
     Cookies.bc3_loader := fun _ _ => inr "no profile";
     Cookies.saved_file :=
       (Cookies._save_session_cookies (Cookies.CtxList login_context)
          Cookies.FileMissing).1;
     Cookies.launch_context := None; Cookies.add_cookies := fun _ => None;
     Cookies.new_page := None |}.

(** A machine on which the stream with pid 4242 ignores SIGTERM. *)
Definition stubborn_os : ToyOS :=
  {| ffmpeg_on_path := true; alive := [4242]; clock := 1700000000000;
     next_pid := 5000; launch_error := None; child_exit := None;
     ignores_sigterm := true; meta_write := Stream.Written;
     meta_unlink := None |}.

(** A start on the idle machine, and a stop of the stream with pid 4242 on
    the machine on which it runs and on the one on which it is stubborn. *)
Definition started_run : Py.result Stream.Started * Stream.Files * ToyOS :=
  Stream._run_stream_start stream_args no_marker idle_os.

Definition stopped_run : Py.result Stream.Stopped * Stream.Files * ToyOS :=
  Stream._run_stream_stop marker_4242 streaming_os.

Definition stubborn_stopped_run
  : Py.result Stream.Stopped * Stream.Files * ToyOS :=
  Stream._run_stream_stop marker_4242 stubborn_os.

(** A profile page that shows three new tweets per scroll position,
    whatever the extractor. *)
Definition timeline_extract (name : Endpoints.extractor_name)
  : Timeline -> list Harvester.row * Timeline := three_per_cycle.

Definition timeline_goto (url : string) (p : Timeline) : Timeline := p.

(** U+00A0, the no-break space, and U+3000, the ideographic space. *)
Definition nbsp : string := of_bytes [194; 160]%nat.
Definition ideographic_space : string := of_bytes [227; 128; 128]%nat.

(** [user_last_tweets --username <U+00A0>] *)
Definition blank_handle_args : Endpoints.Args :=
  {| Endpoints.a_username := Some nbsp; Endpoints.a_keyword := None;
     Endpoints.a_query := None; Endpoints.a_tab := None;
     Endpoints.a_tweet_id := None; Endpoints.a_limit := 20 |}.

(** [get_tweet_by_ids --tweet-ids "<U+3000>,<U+00A0>" --tweet-id <U+00A0>] *)
Definition blank_lookup_args : TweetLookup.LookupArgs :=
  {| TweetLookup.l_tweet_ids := Some (ideographic_space +:+ "," +:+ nbsp);
     TweetLookup.l_tweet_id := [nbsp] |}.

End MoreSamples.
(** * Properties *)

(** ** Shared lemmas on loops and ordered dicts *)

Section Loops.
Context {A B : Type}.

(** A loop that appends at most one element per turn collects a sublist. *)
Lemma fold_left_collect (step : list B -> A -> list B) (sel : A -> option B) :
  (forall acc x, step acc x = acc ++ option_list (sel x)) ->
  forall l acc, fold_left step l acc = acc ++ omap sel l.
Proof.
  intros Hstep l. induction l as [|x l IH]; intros acc; cbn.
  - by rewrite app_nil_r.
  - rewrite IH, Hstep. destruct (sel x); cbn.
    + by rewrite <- app_assoc.
    + by rewrite app_nil_r.
Qed.

End Loops.

Lemma str_empty_true (s : string) : str_empty s = true <-> s = "".
Proof. destruct s; cbn; split; congruence. Qed.

Lemma str_empty_false (s : string) : str_empty s = false <-> s <> "".
Proof. destruct s; cbn; split; congruence. Qed.

Section ODictFacts.
Context {K V : Type} `{EqDecision K}.
Implicit Types (d : ODict.t K V) (k : K) (v : V).

Lemma odict_lookup_None k d : k ∉ ODict.keys d -> ODict.lookup k d = None.
Proof.
  induction d as [|[k' v'] d IH]; cbn; [done|].
  intros Hk. apply not_elem_of_cons in Hk as [Hne Hk].
  destruct (decide (k' = k)); [congruence | auto].
Qed.

Lemma odict_lookup_Some k v d :
  ODict.lookup k d = Some v -> (k, v) ∈ d.
Proof.
  induction d as [|[k' v'] d IH]; cbn; [done|].
  destruct (decide (k' = k)) as [->|].
  - intros [= ->]. left.
  - intros Hl. right. auto.
Qed.

Lemma odict_mem_keys k d : ODict.mem k d = true <-> k ∈ ODict.keys d.
Proof.
  unfold ODict.mem. induction d as [|[k' v'] d IH]; cbn.
  - split; [done | by intros ?%elem_of_nil].
  - destruct (decide (k' = k)) as [->|Hne].
    + split; [intros _; left | done].
    + rewrite IH. split; [by right|].
      intros Hk. apply elem_of_cons in Hk as [->|]; [done | auto].
Qed.

Lemma odict_lookup_set k k' v d :
  ODict.lookup k' (ODict.set k v d)
  = if decide (k = k') then Some v else ODict.lookup k' d.
Proof.
  induction d as [|[k0 v0] d IH]; cbn.
  - by destruct (decide (k = k')).
  - destruct (decide (k0 = k)) as [->|Hne]; cbn.
    + by destruct (decide (k = k')).
    + rewrite IH. destruct (decide (k0 = k')) as [->|]; [|done].
      destruct (decide (k = k')); congruence.
Qed.

Lemma odict_keys_set k v d :
  ODict.keys (ODict.set k v d)
  = if ODict.mem k d then ODict.keys d else ODict.keys d ++ [k].
Proof.
  unfold ODict.mem, ODict.keys. induction d as [|[k0 v0] d IH]; cbn; [done|].
  destruct (decide (k0 = k)) as [->|Hne]; cbn; [done|].
  rewrite IH. by destruct (ODict.lookup k d).
Qed.

(** Setting a key that is not there appends the entry. *)
Lemma odict_set_new k v d :
  ODict.mem k d = false -> ODict.set k v d = d ++ [(k, v)].
Proof.
  unfold ODict.mem. induction d as [|[k0 v0] d IH]; cbn; [done|].
  destruct (decide (k0 = k)) as [->|Hne]; [done|].
  intros Hm. by rewrite IH.
Qed.

Lemma odict_set_NoDup k v d :
  NoDup (ODict.keys d) -> NoDup (ODict.keys (ODict.set k v d)).
Proof.
  intros Hnd. rewrite odict_keys_set.
  destruct (ODict.mem k d) eqn:Hm; [done|].
  apply NoDup_app. split_and!; [done | | apply NoDup_singleton].
  intros x Hx ->%list_elem_of_singleton.
  apply odict_mem_keys in Hx. congruence.
Qed.

(** In a dict whose entries are filed under the key of their value, the
    values with a given key are the entry looked up under it. *)
Lemma odict_values_with_key (key_of : V -> option K) k d :
  NoDup (ODict.keys d) ->
  Forall (fun kv => key_of kv.2 = Some kv.1) d ->
  filter (fun v => key_of v = Some k) (ODict.values d)
  = option_list (ODict.lookup k d).
Proof.
  induction d as [|[k' v'] d IH]; [done|].
  intros Hnd Hall. apply NoDup_cons in Hnd as [Hk' Hnd].
  apply Forall_cons in Hall as [Hv' Hall]. cbn in Hv'.
  change (ODict.values ((k', v') :: d)) with (v' :: ODict.values d).
  rewrite filter_cons, IH by done. cbn [ODict.lookup].
  destruct (decide (k' = k)) as [->|Hne].
  - rewrite decide_True by done. by rewrite odict_lookup_None.
  - rewrite decide_False by congruence. done.
Qed.

End ODictFacts.

(** ** Cookie filters, merge helper and session resolution *)

Section CookieFacts.
Import Cookies.

Lemma any_host_in_Exists (domain : string) :
  any_host_in domain = true
  <-> Exists (fun host => str_contains host domain = true) X_HOSTS.
Proof.
  unfold any_host_in. induction X_HOSTS as [|h hs IH]; cbn.
  - split; [done | by intros ?%Exists_nil].
  - rewrite Exists_cons, orb_true_iff, IH. done.
Qed.

(** The test of the three loops rejects exactly the records that are not
    [retained]. *)
Lemma retained_test (domain name value : string) :
  str_empty name || str_empty value || negb (any_host_in domain) = false
  <-> retained domain name value.
Proof.
  unfold retained. rewrite <- any_host_in_Exists, <- !str_empty_false.
  rewrite !orb_false_iff, negb_false_iff. tauto.
Qed.

Lemma load_loop_filter (raw : list raw_item) :
  fold_left load_step raw [] = filter dict_retained (dicts_of raw).
Proof.
  rewrite (fold_left_collect load_step
    (fun item => match item with
                 | ItemDict d => if decide (dict_retained d) then Some d else None
                 | ItemOther => None
                 end)).
  - rewrite app_nil_l. unfold dicts_of.
    induction raw as [|[d|] raw IH]; [done | | done].
    cbn [omap list_omap]. rewrite filter_cons.
    destruct (decide (dict_retained d)); by rewrite IH.
  - intros acc [d|]; [|cbn; by rewrite app_nil_r].
    unfold load_step.
    destruct (decide (dict_retained d)) as [Hr|Hr]; cbn [option_list].
    + apply retained_test in Hr. by rewrite Hr.
    + destruct (_ || _ || _) eqn:Ht; [by rewrite app_nil_r|].
      by apply retained_test in Ht.
Qed.

(** The save and the browser loops test the domain first and name and
    value afterwards; [Ht] relates the three tests to [retained]. *)
Ltac two_stage_filter Ht :=
  repeat match goal with
         | |- context [any_host_in ?d] => destruct (any_host_in d)
         | |- context [str_empty ?s] => destruct (str_empty s)
         end;
  cbn [negb orb] in *;
  let Hr := fresh "Hr" in
  (case_decide as Hr; cbn [option_list];
   rewrite ?app_nil_r; try done;
   try (apply Ht in Hr; discriminate);
   exfalso; apply Hr, Ht; done).

Lemma save_loop_filter (raw : list raw_item) :
  fold_left save_step raw [] = filter dict_retained (dicts_of raw).
Proof.
  rewrite (fold_left_collect save_step
    (fun item => match item with
                 | ItemDict d => if decide (dict_retained d) then Some d else None
                 | ItemOther => None
                 end)).
  - rewrite app_nil_l. unfold dicts_of.
    induction raw as [|[d|] raw IH]; [done | | done].
    cbn [omap list_omap]. rewrite filter_cons.
    destruct (decide (dict_retained d)); by rewrite IH.
  - intros acc [d|]; [|cbn; by rewrite app_nil_r].
    unfold save_step.
    pose proof (retained_test (field d "domain" "") (field d "name" "")
                  (field d "value" "")) as Ht.
    fold (dict_retained d) in Ht. two_stage_filter Ht.
Qed.

Lemma jar_loop_filter (jar : list JarCookie) :
  fold_left jar_step jar [] = map jar_dict (filter jar_retained jar).
Proof.
  rewrite (fold_left_collect jar_step
    (fun c => if decide (jar_retained c) then Some (jar_dict c) else None)).
  - rewrite app_nil_l. induction jar as [|c jar IH]; [done|].
    cbn [omap list_omap]. rewrite filter_cons.
    destruct (decide (jar_retained c)); cbn [map]; by rewrite IH.
  - intros acc c. unfold jar_step.
    pose proof (retained_test (attr_or (jc_domain c) "") (attr_or (jc_name c) "")
                  (attr_or (jc_value c) "")) as Ht.
    fold (jar_retained c) in Ht. two_stage_filter Ht.
Qed.

(** A field that holds a string is read as that string. *)
Lemma field_string (d : dict) (k s : string) :
  get d k = VStr s -> field d k "" = s.
Proof.
  unfold field, or_. intros ->. cbn. destruct s; done.
Qed.

(** C5: on the load path, the save path and the browser path alike, a
    record is kept if and only if its domain contains x.com or twitter.com
    and both its name and its value are non-empty: each path returns, in
    order, exactly the records of its input that are [retained], where a
    field that holds a string is read as that string. *)
Theorem cookie_filter_characterization :
  (forall raw,
     _load_saved_session_cookies (FileList raw)
     = filter dict_retained (dicts_of raw))
  /\ (forall raw file,
        _save_session_cookies (CtxList raw) file
        = (FileList (map ItemDict (filter dict_retained (dicts_of raw))),
           Z.of_nat (length (filter dict_retained (dicts_of raw)))))
  /\ (forall env browser profile name file jar,
        bc3_installed env = true ->
        existsb (String.eqb browser) VALID_BROWSERS = true ->
        _resolve_cookie_file env browser profile name = Ok file ->
        bc3_loader env browser file = inl jar ->
        _load_x_cookies env browser profile name
        = match map jar_dict (filter jar_retained jar) with
          | [] => Raise (CliError
              "No X/Twitter cookies found. Ensure browser profile is logged in.")
          | c :: cs => Ok (c :: cs)
          end)
  /\ (forall d : dict,
        dict_retained d
        <-> (str_contains "x.com" (field d "domain" "") = true
             \/ str_contains "twitter.com" (field d "domain" "") = true)
            /\ field d "name" "" <> "" /\ field d "value" "" <> "")
  /\ (forall (d : dict) (k s : string), get d k = VStr s -> field d k "" = s).
Proof.
  split_and!.
  - intros raw. apply load_loop_filter.
  - intros raw file. unfold _save_session_cookies.
    by rewrite save_loop_filter.
  - intros env browser profile name file jar Hbc Hbr Hres Hload.
    unfold _load_x_cookies. rewrite Hbc, Hbr, Hres, Hload. cbn [negb].
    rewrite jar_loop_filter. by destruct (map _ _).
  - intros d. unfold dict_retained, retained, X_HOSTS.
    rewrite !Exists_cons, Exists_nil. tauto.
  - apply field_string.
Qed.

Lemma merge_step_inv d src : merge_inv d -> merge_inv (merge_step d src).
Proof.
  intros [Hnd Hall]. unfold merge_step.
  destruct (merge_key src) as [k|] eqn:Hk; [|done].
  split; [by apply odict_set_NoDup|].
  clear Hnd. induction d as [|[k0 v0] d IH]; cbn.
  - by repeat constructor.
  - apply Forall_cons in Hall as [H0 Hall].
    destruct (decide (k0 = k)) as [->|]; constructor; auto.
Qed.

Lemma merge_loop l : forall d,
  merge_inv d ->
  merge_inv (fold_left merge_step l d)
  /\ forall k,
       ODict.lookup k (fold_left merge_step l d)
       = match last (with_key k l) with
         | Some r => Some r
         | None => ODict.lookup k d
         end.
Proof.
  induction l as [|src l IH]; intros d Hinv; [by cbn|].
  cbn [fold_left].
  destruct (IH _ (merge_step_inv d src Hinv)) as [Hinv' Hlook].
  split; [done|]. intros k. rewrite Hlook. unfold with_key.
  rewrite filter_cons. unfold merge_step.
  destruct (merge_key src) as [k0|] eqn:Hk.
  - rewrite odict_lookup_set.
    destruct (decide (Some k0 = Some k)) as [[= ->]|Hne].
    + rewrite decide_True by done. rewrite last_cons.
      by destruct (last _).
    + rewrite decide_False by congruence. done.
  - rewrite decide_False by done. done.
Qed.

Lemma merged_with_key primary secondary k :
  with_key k (_merge_cookie_sets primary secondary)
  = option_list (match last (with_key k primary) with
                 | Some r => Some r
                 | None => last (with_key k secondary)
                 end).
Proof.
  unfold _merge_cookie_sets.
  destruct (merge_loop (secondary ++ primary) ODict.empty) as [[Hnd Hall] Hlook].
  { split; [apply NoDup_nil_2 | constructor]. }
  unfold with_key at 1.
  rewrite (odict_values_with_key merge_key) by done.
  rewrite Hlook.
  replace (with_key k (secondary ++ primary))
    with (with_key k secondary ++ with_key k primary)
    by (symmetry; apply filter_app).
  rewrite last_app. cbn.
  by destruct (last (with_key k primary)), (last (with_key k secondary)).
Qed.


End CookieFacts.

Section SessionFacts.
Import Cookies.

(** The browser source never hands out an empty list. *)
Lemma load_x_cookies_outcome env browser profile name cs :
  _load_x_cookies env browser profile name = Ok cs -> cs <> [].
Proof.
  unfold _load_x_cookies. repeat case_match; simplify_eq; by intros [= <-].
Qed.

(** The context that [_with_page] opens holds exactly the cookies it is
    given, and none are added when there are none. *)
Lemma open_context_outcome (env : Env) (cookies : list dict) :
  (forall held, open_context env cookies = Ok held -> held = cookies)
  /\ (launch_context env = None -> new_page env = None ->
      cookies = [] \/ add_cookies env cookies = None ->
      open_context env cookies = Ok cookies).
Proof.
  unfold open_context. split.
  - intros held. by repeat case_match; intros [= <-].
  - intros -> -> [-> | Hadd]; [done|]. rewrite Hadd. by destruct cookies.
Qed.


End SessionFacts.

(** ** The harvester *)

Section DedupFacts.
Import Harvester.

Lemma seen_inv_empty : seen_inv ODict.empty.
Proof. split; [apply NoDup_nil_2 | constructor]. Qed.

Lemma seen_inv_keys seen :
  seen_inv seen -> ODict.keys seen = map row_key (ODict.values seen).
Proof.
  intros [_ Hall]. unfold ODict.keys, ODict.values.
  induction Hall as [|[k r] d [Hk _] _ IH]; [done|].
  cbn in *. by rewrite IH, Hk.
Qed.

(** The three cases of one turn of the inner loop. *)
Lemma see_keyless seen r : row_key r = "" -> see seen r = seen.
Proof. unfold see. by intros ->. Qed.

Lemma see_known seen r : row_key r ∈ ODict.keys seen -> see seen r = seen.
Proof.
  intros Hin%odict_mem_keys. unfold see. rewrite Hin. cbn.
  by destruct (str_empty _).
Qed.

Lemma see_new seen r :
  row_key r <> "" -> row_key r ∉ ODict.keys seen ->
  see seen r = seen ++ [(row_key r, r)].
Proof.
  intros Hk%str_empty_false Hnot. unfold see. rewrite Hk.
  destruct (ODict.mem (row_key r) seen) eqn:Hm.
  - by apply odict_mem_keys in Hm.
  - cbn. by apply odict_set_new.
Qed.

Lemma see_inv seen r : seen_inv seen -> seen_inv (see seen r).
Proof.
  intros Hinv. destruct (decide (row_key r = "")) as [Hk|Hk].
  { by rewrite see_keyless. }
  destruct (decide (row_key r ∈ ODict.keys seen)) as [Hin|Hin].
  { by rewrite see_known. }
  rewrite see_new by done. destruct Hinv as [Hnd Hall]. split.
  - unfold ODict.keys in *. rewrite map_app. cbn.
    apply NoDup_app. split_and!; [done | | apply NoDup_singleton].
    by intros x Hx ->%list_elem_of_singleton.
  - apply Forall_app. split; [done|]. by repeat constructor.
Qed.

Lemma fold_see_inv rows : forall seen,
  seen_inv seen -> seen_inv (fold_left see rows seen).
Proof.
  induction rows as [|r rows IH]; intros seen Hinv; [done|].
  cbn [fold_left]. by apply IH, see_inv.
Qed.

(** A filter on keys commutes with keeping first occurrences. *)
Lemma first_occurrences_filter (Q : row -> Prop) `{!forall r, Decision (Q r)} rows :
  (forall r1 r2, row_key r1 = row_key r2 -> Q r1 -> Q r2) ->
  first_occurrences (filter Q rows) = filter Q (first_occurrences rows).
Proof.
  intros HQ. induction rows as [|r rows IH]; [done|].
  cbn [first_occurrences]. rewrite !filter_cons.
  destruct (decide (Q r)) as [Hr|Hr]; cbn [first_occurrences].
  - f_equal. rewrite IH, !list_filter_filter.
    apply list_filter_iff. tauto.
  - rewrite IH, list_filter_filter. apply list_filter_iff.
    intros r'. split; [|tauto]. intros Hr'. split; [done|].
    intros Heq. apply Hr. by apply (HQ r').
Qed.

(** The loop and the specification's wording agree: after the loop has met
    [rows], [seen] holds what it held before followed by the first
    occurrences of the new keys. *)
Lemma fold_see_values rows : forall seen,
  seen_inv seen ->
  ODict.values (fold_left see rows seen)
  = ODict.values seen
    ++ first_occurrences
         (filter (fun r => row_key r <> "" /\ row_key r ∉ ODict.keys seen) rows).
Proof.
  induction rows as [|r rows IH]; intros seen Hinv.
  { cbn. by rewrite app_nil_r. }
  cbn [fold_left]. rewrite filter_cons.
  destruct (decide (row_key r = "")) as [Hk|Hk].
  { rewrite see_keyless, decide_False by tauto. by apply IH. }
  destruct (decide (row_key r ∈ ODict.keys seen)) as [Hin|Hin].
  { rewrite see_known, decide_False by tauto. by apply IH. }
  rewrite decide_True by done. cbn [first_occurrences].
  rewrite IH by by apply see_inv.
  rewrite see_new by done. unfold ODict.values, ODict.keys.
  rewrite !map_app. cbn [map fst snd]. rewrite <- app_assoc. cbn [app].
  do 2 f_equal.
  rewrite <- first_occurrences_filter by (intros ?? Heq; by rewrite Heq).
  f_equal. rewrite list_filter_filter. apply list_filter_iff.
  intros r'. rewrite not_elem_of_app, not_elem_of_cons. 
  split; [intros (?&?&?&?) | intros (?&?&?)]; split_and!; try done.
  apply not_elem_of_nil.
Qed.

Lemma unique_rows_keyed_first_seen rows :
  unique_rows rows = keyed_first_seen rows.
Proof.
  unfold unique_rows, keyed_first_seen.
  rewrite fold_see_values by apply seen_inv_empty.
  change (ODict.values ODict.empty) with (@nil row). rewrite app_nil_l.
  f_equal. apply list_filter_iff. intros r. cbn.
  split; [tauto|]. intros ?. split; [done | apply not_elem_of_nil].
Qed.

End DedupFacts.

Section FirstSeenFacts.
Import Harvester.

(** Two elements that a filter keeps stand in the filtered list in the
    order in which they stand in the list. *)
Lemma filter_lookup_order {A} (Q : A -> Prop) `{!forall x, Decision (Q x)}
    (l : list A) : forall (i j : nat) (a b : A),
  filter Q l !! i = Some a -> filter Q l !! j = Some b -> (i < j)%nat ->
  exists i0 j0 : nat,
    (i0 < j0)%nat /\ l !! i0 = Some a /\ l !! j0 = Some b /\ Q a /\ Q b.
Proof.
  induction l as [|y l IH]; intros i j a b Hi Hj Hlt; [done|].
  rewrite filter_cons in Hi, Hj. destruct (decide (Q y)) as [Hy|Hy].
  - destruct i as [|i], j as [|j]; try lia; cbn in Hi, Hj.
    + injection Hi as ->.
      assert (b ∈ filter Q l) as Hb by (by eapply list_elem_of_lookup_2).
      apply list_elem_of_filter in Hb as [Hb Hin].
      apply list_elem_of_lookup_1 in Hin as [j0 Hj0].
      exists 0%nat, (S j0). split_and!; [lia | done..].
    + destruct (IH i j a b Hi Hj) as (i0 & j0 & ? & ? & ? & ? & ?); [lia|].
      exists (S i0), (S j0). split_and!; [lia | done..].
  - destruct (IH i j a b Hi Hj Hlt) as (i0 & j0 & ? & ? & ? & ? & ?).
    exists (S i0), (S j0). split_and!; [lia | done..].
Qed.

Lemma keyed_first_seen_cons r rows :
  keyed_first_seen (r :: rows)
  = if decide (row_key r = "") then keyed_first_seen rows
    else r :: filter (fun r' => row_key r' <> row_key r) (keyed_first_seen rows).
Proof.
  unfold keyed_first_seen. rewrite filter_cons.
  destruct (decide (row_key r = "")) as [Hk|Hk].
  - by rewrite decide_False by tauto.
  - by rewrite decide_True by done.
Qed.

Lemma first_with_key_cons key r rows :
  first_with_key key (r :: rows)
  = if decide (row_key r = key) then Some (0%nat, r)
    else prod_map S id <$> first_with_key key rows.
Proof. done. Qed.

(** Every row that is kept has a key and is the first row of the stream
    filed under that key. *)
Lemma keyed_first_seen_first rows : forall r,
  r ∈ keyed_first_seen rows ->
  row_key r <> "" /\ exists a, first_with_key (row_key r) rows = Some (a, r).
Proof.
  induction rows as [|x rows IH]; intros r Hr.
  { by apply elem_of_nil in Hr. }
  rewrite keyed_first_seen_cons in Hr. rewrite first_with_key_cons.
  destruct (decide (row_key x = "")) as [Hx|Hx].
  - destruct (IH r Hr) as [Hk [a Ha]]. split; [done|].
    rewrite decide_False by congruence. rewrite Ha. by exists (S a).
  - apply elem_of_cons in Hr as [->|Hr].
    + split; [done|]. rewrite decide_True by done. by exists 0%nat.
    + apply list_elem_of_filter in Hr as [Hne Hr].
      destruct (IH r Hr) as [Hk [a Ha]]. split; [done|].
      rewrite decide_False by congruence. rewrite Ha. by exists (S a).
Qed.

(** The rows that are kept stand in the order in which their keys were
    first seen. *)
Lemma keyed_first_seen_order rows : forall (i j : nat) (ri rj : row),
  keyed_first_seen rows !! i = Some ri ->
  keyed_first_seen rows !! j = Some rj ->
  (i < j)%nat ->
  exists a b : nat,
    first_with_key (row_key ri) rows = Some (a, ri)
    /\ first_with_key (row_key rj) rows = Some (b, rj) /\ (a < b)%nat.
Proof.
  induction rows as [|x rows IH]; intros i j ri rj Hi Hj Hlt; [done|].
  rewrite keyed_first_seen_cons in Hi, Hj. rewrite !first_with_key_cons.
  destruct (decide (row_key x = "")) as [Hx|Hx].
  - destruct (IH i j ri rj Hi Hj Hlt) as (a & b & Ha & Hb & Hab).
    assert (row_key ri <> "" /\ row_key rj <> "") as [??].
    { split; eapply keyed_first_seen_first, list_elem_of_lookup_2; eauto. }
    rewrite !decide_False by congruence. rewrite Ha, Hb.
    exists (S a), (S b). split_and!; [done.. | lia].
  - destruct i as [|i], j as [|j]; try lia; cbn in Hi, Hj.
    + injection Hi as ->. rewrite decide_True by done.
      assert (rj ∈ filter (fun r' => row_key r' <> row_key ri)
                     (keyed_first_seen rows)) as Hin
        by (by eapply list_elem_of_lookup_2).
      apply list_elem_of_filter in Hin as [Hne Hin].
      destruct (keyed_first_seen_first rows rj Hin) as [_ [b Hb]].
      rewrite decide_False by congruence. rewrite Hb.
      exists 0%nat, (S b). split_and!; [done.. | lia].
    + destruct (filter_lookup_order _ _ i j ri rj Hi Hj)
        as (i0 & j0 & Hlt0 & Hi0 & Hj0 & Hnei & Hnej); [lia|].
      destruct (IH i0 j0 ri rj Hi0 Hj0 Hlt0) as (a & b & Ha & Hb & Hab).
      rewrite !decide_False by congruence. rewrite Ha, Hb.
      exists (S a), (S b). split_and!; [done.. | lia].
Qed.

Lemma unique_rows_NoDup rows : NoDup (map row_key (unique_rows rows)).
Proof.
  unfold unique_rows.
  pose proof (fold_see_inv rows ODict.empty seen_inv_empty) as Hinv.
  rewrite <- seen_inv_keys by done. apply Hinv.
Qed.

(** [l[:n]] is a prefix of [l] whatever the sign of [n]. *)
Lemma slice_to_take {A} (n : Z) (l : list A) :
  exists m : nat, slice_to n l = take m l.
Proof. unfold slice_to. destruct (0 <=? n); eauto. Qed.

Lemma slice_to_nonneg {A} (n : Z) (l : list A) :
  0 <= n -> slice_to n l = take (Z.to_nat n) l.
Proof. intros Hn. unfold slice_to. by rewrite (proj2 (Z.leb_le 0 n)). Qed.

Lemma slice_to_short {A} (n : Z) (l : list A) :
  Z.of_nat (length l) <= n -> slice_to n l = l.
Proof.
  intros Hn. rewrite slice_to_nonneg by lia. apply take_ge. lia.
Qed.

End FirstSeenFacts.

Section CollectFacts.
Import Harvester.
Context {Page : Type}.
Variable extractor : Page -> list row * Page.
Variable wheel : Page -> Page.
Variable wait_for_timeout : Z -> Page -> Page.

Abbreviation extracted := (extracted extractor wheel wait_for_timeout).
Abbreviation turned := (turned extractor wheel wait_for_timeout).
Abbreviation scroll_loop := (scroll_loop extractor wheel wait_for_timeout).
Abbreviation collect := (_collect_with_scroll extractor wheel wait_for_timeout).

Lemma extracted_S k pause page :
  extracted (S k) pause page
  = (extractor page).1
    ++ extracted k pause (wait_for_timeout pause (wheel (extractor page).2)).
Proof. cbn. by destruct (extractor page). Qed.

(** The loop either breaks at the first extraction after which [seen]
    holds [limit] entries, before scrolling again, or runs out of turns
    with fewer entries after every extraction. *)
Lemma scroll_loop_spec limit pause n : forall seen page,
  let seen_after k := fold_left see (extracted k pause page) seen in
  (exists k : nat,
     (k < n)%nat
     /\ limit <= Z.of_nat (length (seen_after (S k)))
     /\ (forall j : nat, (j < k)%nat ->
           Z.of_nat (length (seen_after (S j))) < limit)
     /\ scroll_loop n limit pause seen page
        = (seen_after (S k), (extractor (turned k pause page)).2))
  \/ ((forall j : nat, (j < n)%nat ->
         Z.of_nat (length (seen_after (S j))) < limit)
      /\ scroll_loop n limit pause seen page
         = (seen_after n, turned n pause page)).
Proof.
  induction n as [|n IH]; intros seen page seen_after.
  { right. split; [lia | done]. }
  assert (forall k, seen_after (S k)
    = fold_left see
        (extracted k pause (wait_for_timeout pause (wheel (extractor page).2)))
        (fold_left see (extractor page).1 seen)) as Hstep.
  { intros k. unfold seen_after. by rewrite extracted_S, fold_left_app. }
  cbn [Harvester.scroll_loop Harvester.turned].
  destruct (extractor page) as [rows page1] eqn:Hext. cbn [fst snd] in *.
  destruct (limit <=? Z.of_nat (length (fold_left see rows seen))) eqn:Hlim.
  - left. exists 0%nat. apply Z.leb_le in Hlim.
    rewrite Hstep. cbn. rewrite Hext. split_and!; [lia | done | lia | done].
  - apply Z.leb_gt in Hlim.
    destruct (IH (fold_left see rows seen)
                (wait_for_timeout pause (wheel page1)))
      as [(k & Hk & Hge & Hlt & Heq) | (Hlt & Heq)].
    + left. exists (S k). rewrite Hstep. split_and!; [lia | done | | ].
      * intros [|j] Hj; rewrite Hstep; [done | apply Hlt; lia].
      * rewrite Heq. cbn [Harvester.turned]. by rewrite ?Hext.
    + right. rewrite Hstep. split.
      * intros [|j] Hj; rewrite Hstep; [done | apply Hlt; lia].
      * rewrite Heq. cbn [Harvester.turned]. by rewrite ?Hext.
Qed.

(** C2: the loop compares the number of unique rows with the limit after
    each extraction and stops at the first extraction that reaches the
    limit, before scrolling again, returning the unique rows cut to the
    limit (exactly [limit] rows when the limit is not negative); otherwise
    it stops after [max_scrolls] turns and returns all unique rows seen,
    fewer than [limit], as an ordinary result. *)
Theorem harvester_limit_and_termination
    (page : Page) (limit max_scrolls pause_ms : Z) :
  let unique_after k := unique_rows (extracted k pause_ms page) in
  let '(result, page') := collect page limit max_scrolls pause_ms in
  (exists k : nat,
     (k < Z.to_nat max_scrolls)%nat
     /\ limit <= Z.of_nat (length (unique_after (S k)))
     /\ (forall j : nat, (j < k)%nat ->
           Z.of_nat (length (unique_after (S j))) < limit)
     /\ result = slice_to limit (unique_after (S k))
     /\ (0 <= limit -> Z.of_nat (length result) = limit)
     /\ page' = (extractor (turned k pause_ms page)).2)
  \/ ((forall j : nat, (j < Z.to_nat max_scrolls)%nat ->
         Z.of_nat (length (unique_after (S j))) < limit)
      /\ result = unique_after (Z.to_nat max_scrolls)
      /\ page' = turned (Z.to_nat max_scrolls) pause_ms page).
Proof.
  intros unique_after. unfold Harvester._collect_with_scroll.
  assert (forall k, length (fold_left see (extracted k pause_ms page) ODict.empty)
                    = length (unique_after k)) as Hlen.
  { intros k. unfold unique_after, unique_rows, ODict.values.
    by rewrite length_map. }
  destruct (scroll_loop_spec limit pause_ms (Z.to_nat max_scrolls)
              ODict.empty page)
    as [(k & Hk & Hge & Hlt & ->) | (Hlt & ->)].
  - left. exists k. rewrite Hlen in Hge. split_and!; try done.
    + intros j Hj. rewrite <- Hlen. by apply Hlt.
    + intros Hlimit. rewrite slice_to_nonneg by done.
      fold (unique_rows (extracted (S k) pause_ms page)).
      fold (unique_after (S k)). rewrite length_take. lia.
  - right. split_and!; try done.
    + intros j Hj. rewrite <- Hlen. by apply Hlt.
    + fold (unique_rows (extracted (Z.to_nat max_scrolls) pause_ms page)).
      fold (unique_after (Z.to_nat max_scrolls)).
      destruct (Z.to_nat max_scrolls) as [|n] eqn:Hn.
      * unfold unique_after. cbn. unfold slice_to.
        by destruct (0 <=? limit); rewrite take_nil.
      * apply slice_to_short. specialize (Hlt n). rewrite Hlen in Hlt. lia.
Qed.

(** C3: deduplication is first-occurrence-wins and drops keyless rows. The
    rows returned are, cut to the limit, the rows of the stream of extracted
    rows that have a key, each key kept once, at its first occurrence; so
    every returned row has a non-empty key and is the first row the loop
    met under that key (a later row with the same key never replaces it),
    no key is returned twice, and the rows stand in the order in which
    their keys were first seen. *)
Theorem harvester_first_occurrence_wins
    (page : Page) (limit max_scrolls pause_ms : Z) :
  exists k : nat,
    (k <= Z.to_nat max_scrolls)%nat /\
    let stream := extracted k pause_ms page in
    let result := (collect page limit max_scrolls pause_ms).1 in
    result = slice_to limit (keyed_first_seen stream)
    /\ (forall r, r ∈ result ->
          row_key r <> ""
          /\ exists a, first_with_key (row_key r) stream = Some (a, r))
    /\ NoDup (map row_key result)
    /\ (forall (i j : nat) (ri rj : row),
          result !! i = Some ri -> result !! j = Some rj -> (i < j)%nat ->
          exists a b : nat,
            first_with_key (row_key ri) stream = Some (a, ri)
            /\ first_with_key (row_key rj) stream = Some (b, rj)
            /\ (a < b)%nat).
Proof.
  assert (exists k : nat, (k <= Z.to_nat max_scrolls)%nat
            /\ (collect page limit max_scrolls pause_ms).1
               = slice_to limit (keyed_first_seen (extracted k pause_ms page)))
    as (k & Hk & Hres).
  { unfold Harvester._collect_with_scroll.
    destruct (scroll_loop_spec limit pause_ms (Z.to_nat max_scrolls)
                ODict.empty page) as [(k & Hk & _ & _ & ->) | (_ & ->)].
    - exists (S k). split; [lia|]. cbn [fst].
      by rewrite <- unique_rows_keyed_first_seen.
    - exists (Z.to_nat max_scrolls). split; [lia|]. cbn [fst].
      by rewrite <- unique_rows_keyed_first_seen. }
  exists k. split; [done|]. intros stream result.
  fold stream in Hres. fold result in Hres.
  destruct (slice_to_take limit (keyed_first_seen stream)) as [m Hm].
  rewrite Hm in Hres. split_and!.
  - by rewrite Hm.
  - intros r Hr. rewrite Hres in Hr.
    apply keyed_first_seen_first.
    by eapply subseteq_take.
  - rewrite Hres. change (map row_key) with (fmap (M:=list) row_key).
    rewrite fmap_take. eapply (sublist_NoDup _ _); [|apply sublist_take].
    rewrite <- unique_rows_keyed_first_seen. apply unique_rows_NoDup.
  - intros i j ri rj Hi Hj Hlt. rewrite Hres in Hi, Hj.
    apply lookup_take_Some in Hi as [Hi _], Hj as [Hj _].
    by apply (keyed_first_seen_order stream i j).
Qed.

(** Rows whose keys are all known leave [seen] as it is. *)
Lemma fold_see_known rows : forall seen,
  (forall r, r ∈ rows -> row_key r = "" \/ row_key r ∈ ODict.keys seen) ->
  fold_left see rows seen = seen.
Proof.
  induction rows as [|r rows IH]; intros seen Hknown; [done|].
  cbn [fold_left].
  assert (see seen r = seen) as ->.
  { destruct (Hknown r) as [?|?]; [left | by apply see_keyless
                                   | by apply see_known]. }
  apply IH. intros r' Hr'. apply Hknown. by right.
Qed.

Lemma see_keys_mono seen r k :
  k ∈ ODict.keys seen -> k ∈ ODict.keys (see seen r).
Proof.
  intros Hk. destruct (decide (row_key r = "")) as [?|Hr].
  { by rewrite see_keyless. }
  destruct (decide (row_key r ∈ ODict.keys seen)) as [?|Hnew].
  { by rewrite see_known. }
  rewrite see_new by done. unfold ODict.keys in *. rewrite map_app.
  apply elem_of_app. by left.
Qed.

Lemma fold_see_keys_mono rows : forall seen k,
  k ∈ ODict.keys seen -> k ∈ ODict.keys (fold_left see rows seen).
Proof.
  induction rows as [|r rows IH]; intros seen k Hk; [done|].
  cbn [fold_left]. by apply IH, see_keys_mono.
Qed.

(** After the loop has met [rows], every key of [rows] is in [seen]. *)
Lemma fold_see_covers rows : forall seen r,
  r ∈ rows ->
  row_key r = "" \/ row_key r ∈ ODict.keys (fold_left see rows seen).
Proof.
  induction rows as [|r0 rows IH]; intros seen r Hr.
  { by apply elem_of_nil in Hr. }
  cbn [fold_left]. apply elem_of_cons in Hr as [->|Hr]; [|by apply IH].
  destruct (decide (row_key r0 = "")) as [?|Hk]; [by left | right].
  apply fold_see_keys_mono.
  destruct (decide (row_key r0 ∈ ODict.keys seen)) as [?|Hnew].
  { by rewrite see_known. }
  rewrite see_new by done. unfold ODict.keys. rewrite map_app.
  apply elem_of_app. right. cbn. left.
Qed.

(** Once every key the view can show is in [seen], further turns change
    nothing. *)
Lemma scroll_loop_saturated limit pause n : forall seen page,
  (forall p r, r ∈ (extractor p).1 ->
     row_key r = "" \/ row_key r ∈ ODict.keys seen) ->
  (scroll_loop n limit pause seen page).1 = seen.
Proof.
  induction n as [|n IH]; intros seen page Hknown; [done|].
  cbn [Harvester.scroll_loop].
  pose proof (fold_see_known (extractor page).1 seen (Hknown page)) as Hsame.
  destruct (extractor page) as [rows page1]. cbn [fst] in Hsame.
  rewrite Hsame. destruct (limit <=? _); [done|]. by apply IH.
Qed.

(** A view that shows the same keys on every page yields the first
    occurrences of the first extraction, cut to the limit. *)
Lemma collect_same_keys (page : Page) (limit max_scrolls pause_ms : Z) :
  (forall p, map row_key (extractor p).1 = map row_key (extractor page).1) ->
  1 <= max_scrolls ->
  (collect page limit max_scrolls pause_ms).1
  = slice_to limit (keyed_first_seen (extractor page).1).
Proof.
  intros Hkeys Hmax. unfold Harvester._collect_with_scroll.
  destruct (Z.to_nat max_scrolls) as [|n] eqn:Hn; [lia|].
  assert (forall p r, r ∈ (extractor p).1 ->
            row_key r = ""
            \/ row_key r ∈ ODict.keys
                 (fold_left see (extractor page).1 ODict.empty)) as Hknown.
  { intros p r Hr.
    assert (row_key r ∈ map row_key (extractor page).1) as Hin.
    { rewrite <- (Hkeys p). apply list_elem_of_fmap. by exists r. }
    apply list_elem_of_fmap in Hin as [r1 [-> Hr1]].
    by apply fold_see_covers. }
  rewrite <- unique_rows_keyed_first_seen. unfold unique_rows.
  cbn [Harvester.scroll_loop].
  destruct (extractor page) as [rows page1] eqn:Hext. cbn [fst] in *.
  destruct (limit <=? _); [done|].
  pose proof (scroll_loop_saturated limit pause_ms n
                (fold_left see rows ODict.empty)
                (wait_for_timeout pause_ms (wheel page1)) Hknown) as Hsat.
  destruct (scroll_loop n limit pause_ms _ _) as [seen page2].
  cbn [fst] in *. by subst.
Qed.

(** Rows with distinct, non-empty keys are all first occurrences. *)
Lemma keyed_first_seen_distinct rows :
  NoDup (map row_key rows) -> Forall (fun r => row_key r <> "") rows ->
  keyed_first_seen rows = rows.
Proof.
  induction rows as [|r rows IH]; intros Hnd Hall; [done|].
  cbn [map] in Hnd. apply NoDup_cons in Hnd as [Hr Hnd].
  apply Forall_cons in Hall as [Hk Hall].
  rewrite keyed_first_seen_cons, decide_False, IH by done. f_equal.
  clear IH Hnd Hall. induction rows as [|r' rows IH]; [done|].
  cbn [map] in Hr. apply not_elem_of_cons in Hr as [Hne Hr].
  rewrite filter_cons, decide_True by congruence. f_equal. by apply IH.
Qed.

(** C4: on a static view, one that hands out the same rows on every
    extraction, a call and a second call that starts on the page the first
    one left return the same rows in the same order: each call starts from
    an empty [seen]. With at least one turn the result is the first
    occurrences of the keyed rows cut to the limit, and rows with distinct
    keys that fit the limit come back as they are. When only the keys are
    the same on every page and the payloads differ from one extraction to
    the next, the rows of the first extraction are the ones returned. *)
Theorem harvester_static_view_idempotent
    (page : Page) (limit max_scrolls pause_ms : Z) :
  (forall rows,
     (forall p, (extractor p).1 = rows) ->
     let '(first, page1) := collect page limit max_scrolls pause_ms in
     let '(second, _) := collect page1 limit max_scrolls pause_ms in
     first = second
     /\ (1 <= max_scrolls -> first = slice_to limit (keyed_first_seen rows))
     /\ (1 <= max_scrolls ->
         NoDup (map row_key rows) ->
         Forall (fun r => row_key r <> "") rows ->
         Z.of_nat (length rows) <= limit ->
         first = rows))
  /\ ((forall p, map row_key (extractor p).1 = map row_key (extractor page).1) ->
      1 <= max_scrolls ->
      (collect page limit max_scrolls pause_ms).1
      = slice_to limit (keyed_first_seen (extractor page).1)).
Proof.
  split; [|apply collect_same_keys].
  intros rows Hstatic.
  assert (forall p, 1 <= max_scrolls ->
            (collect p limit max_scrolls pause_ms).1
            = slice_to limit (keyed_first_seen rows)) as Hcall.
  { intros p Hmax. rewrite <- (Hstatic p). apply collect_same_keys; [|done].
    intros p'. by rewrite !Hstatic. }
  assert (forall p, ~ 1 <= max_scrolls ->
            (collect p limit max_scrolls pause_ms).1 = slice_to limit [])
    as Hnone.
  { intros p Hmax. unfold Harvester._collect_with_scroll.
    replace (Z.to_nat max_scrolls) with 0%nat by lia. done. }
  pose proof (Hcall page) as Hfirst. pose proof (Hnone page) as Hfirst0.
  destruct (collect page limit max_scrolls pause_ms) as [first page1].
  pose proof (Hcall page1) as Hsecond. pose proof (Hnone page1) as Hsecond0.
  destruct (collect page1 limit max_scrolls pause_ms) as [second page2].
  cbn [fst] in *. split_and!.
  - destruct (decide (1 <= max_scrolls)) as [Hmax|Hmax].
    + by rewrite Hfirst, Hsecond.
    + by rewrite Hfirst0, Hsecond0.
  - done.
  - intros Hmax Hnd Hall Hlen. rewrite Hfirst by done.
    rewrite keyed_first_seen_distinct by done. by apply slice_to_short.
Qed.

End CollectFacts.

(** ** The paginated endpoints *)

Section EndpointFacts.
Import Endpoints.
Variable quote : string -> string.

Lemma clamp_bounds (limit cap : Z) :
  1 <= cap -> 1 <= Z.max 1 (Z.min limit cap) <= cap.
Proof. lia. Qed.

(** C10, as the code has it: for every integer [--limit], zero and
    negative values included, every paginated read endpoint clamps the
    limit to [max(1, min(limit, cap))], with cap 200 for user tweets and
    the two searches, 300 for notifications and 500 for follower and
    following listings, and hands exactly the clamped limit, which lies
    between 1 and the cap, to the harvester, whose rows it returns. The
    one exception is [tweet_replies], which harvests two rows more than its
    clamped limit (between 3 and 202) and cuts the replies to the clamped
    limit afterwards. *)
Theorem endpoint_limit_clamped (e : endpoint) (args : Args) (c : HarvestCall)
    (Hcall : call_of quote e args = Ok c) :
  let clamped := Z.max 1 (Z.min (a_limit args) (cap_of e)) in
  1 <= clamped <= cap_of e
  /\ hc_limit c = match e with
                  | tweet_replies => clamped + 2
                  | _ => clamped
                  end
  /\ (e <> tweet_replies -> 1 <= hc_limit c <= cap_of e)
  /\ (forall rows, length (tweet_replies_keep args rows) <= 200)%nat
  /\ (forall (Page : Type) (open_page : result Page) goto wait_for_timeout
             wheel extract,
        run quote open_page goto wait_for_timeout wheel extract e args
        = match open_page with
          | Raise err => Raise err
          | Ok page =>
              let rows :=
                (Harvester._collect_with_scroll (extract (hc_extractor c))
                   wheel wait_for_timeout
                   (wait_for_timeout (hc_wait c) (goto (hc_url c) page))
                   (hc_limit c) (hc_max_scrolls c) 750).1 in
              Ok match e with
                 | tweet_replies => tweet_replies_keep args rows
                 | _ => rows
                 end
          end)
  /\ cap_of user_last_tweets = 200 /\ cap_of search_user = 200
  /\ cap_of advanced_search = 200 /\ cap_of notifications_list = 300
  /\ cap_of user_followers = 500 /\ cap_of user_followings = 500.
Proof.
  intros clamped.
  assert (1 <= clamped <= cap_of e) as Hbounds.
  { unfold clamped. apply clamp_bounds. destruct e; cbn; lia. }
  assert (hc_limit c = match e with
                       | tweet_replies => clamped + 2
                       | _ => clamped
                       end) as Hlimit.
  { unfold clamped. destruct e; cbn in Hcall;
      unfold user_last_tweets_call, home_timeline_call,
        notifications_list_call, user_connections_call, search_user_call,
        advanced_search_call, tweet_replies_call, tweet_quotes_call,
        tweet_retweeters_call, tweet_thread_context_call, trends_call,
        spaces_live_call in Hcall;
      repeat case_match; simplify_eq; done. }
  split; [done|]. split; [done|]. split; [|split; [|split; [|done]]].
  - intros Hne. rewrite Hlimit. by destruct e.
  - intros rows. unfold tweet_replies_keep.
    rewrite slice_to_nonneg by lia. rewrite length_take. lia.
  - intros Page open_page goto wait_for_timeout wheel extract.
    unfold run, harvest. rewrite Hcall.
    destruct open_page; [|done]. by destruct e.
Qed.

End EndpointFacts.

(** ** The stream supervisor *)

Section StreamFacts.
Import Stream.
Context {OS : Type} `{System OS}.

(** The probe answers for the pids that fit a C int and raises
    [OverflowError] for the others. *)
Lemma pid_running_fits (pid : Z) (os : OS) (running : bool) :
  _pid_running pid os = Ok running
  <-> fits_c_int pid = true
      /\ running = match os_kill pid SIG0 os with
                   | Some _ => true
                   | None => false
                   end.
Proof.
  unfold _pid_running. destruct (fits_c_int pid); [|by split; [|intros []]].
  destruct (os_kill pid SIG0 os); split; (intros [= <-] || intros [_ ->]); done.
Qed.

Lemma pid_running_overflow (pid : Z) (os : OS) :
  fits_c_int pid = false
  <-> _pid_running pid os = Raise (OtherError "OverflowError").
Proof.
  unfold _pid_running. destruct (fits_c_int pid); [|done].
  by destruct (os_kill pid SIG0 os).
Qed.

(** A [start] that returns has written the marker and the metadata for the
    child it launched. One that raises has left the files alone, unless
    what raised is one of the two writes: a marker write that fails after
    opening the file leaves the marker empty, and a metadata write that
    fails leaves the marker written without the metadata. *)
Lemma start_files (args : StreamArgs) (fs : Files) (os : OS) :
  match _run_stream_start args fs os with
  | (Ok s, fs', os') =>
      pid_file fs' = Some (PidText (started_pid s))
      /\ exists started_at input_value cmd,
           meta_file fs'
           = Some (MetaJson (stream_meta (started_pid s) started_at
                               input_value (started_target s) cmd))
  | (Raise err, fs', os') =>
      fs' = fs
      \/ (exists pid name,
            write_pid pid os' = WriteFailed name true
            /\ err = OtherError name
            /\ fs' = {| pid_file := Some PidInvalid;
                        meta_file := meta_file fs |})
      \/ (exists pid meta name emptied,
            write_pid pid os' = Written
            /\ write_meta meta os' = WriteFailed name emptied
            /\ err = OtherError name
            /\ pid_file fs' = Some (PidText pid)
            /\ meta_file fs'
               = if emptied then Some MetaCorrupt else meta_file fs)
  end.
Proof.
  unfold _run_stream_start.
  repeat case_match; simplify_eq; try (by left).
  - cbn. split; [done|]. eauto.
  - right. right. cbn. destruct emptied; eauto 10.
  - destruct emptied; [right; left; eauto 10 | by left].
Qed.

Lemma already_running_told (pid : Z) :
  is_already_running (Raise (already_running pid)) = true.
Proof. reflexivity. Qed.

(** [start] raises the already-running error exactly when ffmpeg is found
    and the marker holds the pid of a live process, and then nothing has
    changed. *)
Lemma start_already_running (args : StreamArgs) (fs : Files) (os : OS) :
  let '(res, fs', os') := _run_stream_start args fs os in
  (is_already_running res = true
   <-> which_ffmpeg os = true
       /\ exists pid, pid_file fs = Some (PidText pid)
                      /\ _pid_running pid os = Ok true)
  /\ (forall pid,
        pid_file fs = Some (PidText pid) -> is_already_running res = true ->
        res = Raise (already_running pid) /\ fs' = fs /\ os' = os).
Proof.
  unfold _run_stream_start, _ensure_ffmpeg.
  destruct (which_ffmpeg os); cbn [negb].
  2:{ split; [split; [done | by intros [? _]] | done]. }
  destruct (_run_stream_status fs os) as [status|err] eqn:Hstatus.
  2:{ unfold _run_stream_status in Hstatus.
      destruct (pid_file fs) as [[pid|]|]; try done.
      destruct (_pid_running pid os) as [running|err'] eqn:Hrun; [done|].
      injection Hstatus as ->.
      assert (fits_c_int pid = false) as Hfits.
      { unfold _pid_running in Hrun. destruct (fits_c_int pid); [|done].
        by destruct (os_kill pid SIG0 os). }
      apply pid_running_overflow with (os := os) in Hfits.
      rewrite Hrun in Hfits. injection Hfits as ->. cbn.
      split; [split; [done|] | done].
      intros [_ (pid' & [= <-] & Hlive)]. congruence. }
  destruct (st_running status) eqn:Hrun.
  - unfold _run_stream_status in Hstatus.
    destruct (pid_file fs) as [[pid|]|]; simplify_eq; try done.
    destruct (_pid_running pid os) as [running|] eqn:Hlive; simplify_eq.
    cbn in Hrun. subst running. cbn.
    split; [split; [eauto | done]|]. by intros ? [= ->] _.
  - assert (~ exists pid, pid_file fs = Some (PidText pid)
                          /\ _pid_running pid os = Ok true) as Hnot.
    { intros (pid & Hpid & Hlive). unfold _run_stream_status in Hstatus.
      rewrite Hpid, Hlive in Hstatus. injection Hstatus as <-. done. }
    unfold _stream_target_url.
    repeat case_match; simplify_eq; cbn;
      (split; [split; [done | by intros [_ ?]] | done]).
Qed.

(** What the two unlinks leave: both files gone, or the exception of the
    one that failed, with the marker gone when it was the second. *)
Lemma unlink_both_outcome (fs : Files) (os : OS) :
  match unlink_both fs os with
  | (None, fs') =>
      unlink_pid os = None /\ unlink_meta os = None /\ fs' = cleared
  | (Some err, fs') =>
      (exists name, unlink_pid os = Some name /\ err = OtherError name
                    /\ fs' = fs)
      \/ (exists name,
            unlink_pid os = None /\ unlink_meta os = Some name
            /\ err = OtherError name
            /\ fs' = {| pid_file := None; meta_file := meta_file fs |})
  end.
Proof.
  unfold unlink_both.
  destruct (unlink_pid os) as [name|]; [left; eauto|].
  destruct (unlink_meta os) as [name|]; [right; eauto|]. done.
Qed.

(** A [stop] that returns has left the files alone when there was no
    marker and has unlinked both otherwise. One that raises has left the
    files alone, unless what raised is the unlink of the metadata, after
    the marker was unlinked. *)
Lemma stop_files (fs : Files) (os : OS) :
  let '(res, fs', os') := _run_stream_stop fs os in
  match res with
  | Ok _ =>
      (pid_file fs = None /\ fs' = fs)
      \/ (pid_file fs <> None /\ fs' = cleared)
  | Raise err =>
      fs' = fs
      \/ (exists name,
            unlink_pid os' = None /\ unlink_meta os' = Some name
            /\ err = OtherError name
            /\ fs' = {| pid_file := None; meta_file := meta_file fs |})
  end.
Proof.
  unfold _run_stream_stop.
  destruct (pid_file fs) as [[pid|]|] eqn:Hpid; [|by left..].
  assert (forall os1 : OS,
            match unlink_both fs os1 with
            | (Some err, fs') =>
                fs' = fs
                \/ (exists name,
                      unlink_pid os1 = None /\ unlink_meta os1 = Some name
                      /\ err = OtherError name
                      /\ fs' = {| pid_file := None;
                                  meta_file := meta_file fs |})
            | (None, fs') =>
                (pid_file fs = None /\ fs' = fs)
                \/ (pid_file fs <> None /\ fs' = cleared)
            end) as Hunlink.
  { intros os1. pose proof (unlink_both_outcome fs os1) as Hout.
    destruct (unlink_both fs os1) as [[err|] fs'].
    - destruct Hout as [(name & _ & _ & ->) | Hout]; [by left | by right].
    - destruct Hout as (_ & _ & ->). right. by rewrite Hpid. }
  repeat case_match; simplify_eq; try (by left);
    match goal with
    | Hu : unlink_both fs ?os1 = _ |- _ =>
        specialize (Hunlink os1); by rewrite Hu, ?Hpid in Hunlink
    end.
Qed.

(** The polling loop never runs out of turns: when every sleep lasts at
    least as long as asked, it ends because the deadline has passed or the
    process is gone, or because the probe raised. *)
Lemma wait_exit_ends (pid deadline : Z) :
  (forall ms os, time_time os + ms <= time_time (time_sleep ms os)) ->
  forall (polls : nat) (os : OS),
    deadline <= time_time os + 250 * Z.of_nat polls - 250 ->
    let '(raised, os') := wait_exit polls pid deadline os in
    match raised with
    | None => deadline <= time_time os' \/ _pid_running pid os' = Ok false
    | Some err => _pid_running pid os' = Raise err
    end.
Proof.
  intros Hsleep polls. induction polls as [|polls IH]; intros os Hfuel; cbn.
  { left. lia. }
  destruct (time_time os <? deadline) eqn:Hnow.
  - destruct (_pid_running pid os) as [[|]|err] eqn:Hrun; [|by right|done].
    apply IH. specialize (Hsleep 250 os). lia.
  - left. apply Z.ltb_ge in Hnow. lia.
Qed.

Lemma stop_polls_enough (pid : Z) (os : OS) :
  (forall ms os, time_time os + ms <= time_time (time_sleep ms os)) ->
  let '(raised, os') := wait_exit stop_polls pid (time_time os + 8000) os in
  match raised with
  | None =>
      time_time os + 8000 <= time_time os' \/ _pid_running pid os' = Ok false
  | Some err => _pid_running pid os' = Raise err
  end.
Proof.
  intros Hsleep. apply wait_exit_ends; [done|]. unfold stop_polls. lia.
Qed.

(** C6, as the code has it: without ffmpeg on the search path
    [stream_start] fails with the missing-ffmpeg error before it looks at
    the marker. It fails with the already-running error exactly when
    ffmpeg is installed, a PID marker exists and its PID is that of a live
    process; the error names that pid and the files and the system are
    left as they were. In every other case [start] either launches ffmpeg
    and writes the PID marker and the metadata, or fails; a failure leaves
    both files as they were unless it is the failure of one of the two
    writes: a marker write that fails can leave the marker empty, and a
    metadata write that fails leaves the marker written without its
    metadata. *)
Theorem stream_start_fails_fast_when_running
    (args : StreamArgs) (fs : Files) (os : OS) :
  let '(res, fs', os') := _run_stream_start args fs os in
  (which_ffmpeg os = false ->
   res = Raise (CliError
                  "ffmpeg is required for live streaming. Install ffmpeg first.")
   /\ fs' = fs /\ os' = os)
  /\ (is_already_running res = true
      <-> which_ffmpeg os = true
          /\ exists pid, pid_file fs = Some (PidText pid)
                         /\ _pid_running pid os = Ok true)
  /\ (forall pid,
        pid_file fs = Some (PidText pid) -> is_already_running res = true ->
        res = Raise (already_running pid) /\ fs' = fs /\ os' = os)
  /\ match res with
     | Ok s =>
         pid_file fs' = Some (PidText (started_pid s))
         /\ exists started_at input_value cmd,
              meta_file fs'
              = Some (MetaJson (stream_meta (started_pid s) started_at
                                  input_value (started_target s) cmd))
     | Raise err =>
         fs' = fs
         \/ (exists pid name,
               write_pid pid os' = WriteFailed name true
               /\ err = OtherError name
               /\ fs' = {| pid_file := Some PidInvalid;
                           meta_file := meta_file fs |})
         \/ (exists pid meta name emptied,
               write_pid pid os' = Written
               /\ write_meta meta os' = WriteFailed name emptied
               /\ err = OtherError name
               /\ pid_file fs' = Some (PidText pid)
               /\ meta_file fs'
                  = if emptied then Some MetaCorrupt else meta_file fs)
     end.
Proof.
  pose proof (start_already_running args fs os) as Hrun.
  pose proof (start_files args fs os) as Hfiles.
  assert (which_ffmpeg os = false ->
          _run_stream_start args fs os
          = (Raise (CliError
                      "ffmpeg is required for live streaming. Install ffmpeg first."),
             fs, os)) as Hffmpeg.
  { intros Hnone. unfold _run_stream_start, _ensure_ffmpeg. by rewrite Hnone. }
  destruct (_run_stream_start args fs os) as [[res fs'] os'].
  destruct Hrun as [Hiff Hsame]. split_and!; [|apply Hiff..|done|].
  - intros Hnone. by injection (Hffmpeg Hnone) as -> -> ->.
  - by destruct res.
Qed.


(** C8, as the code has it: an operation that returns has written or
    cleared the PID marker and the metadata record as a pair. A [start]
    that returns has written both, for the pid it returns; a [stop] that
    returns has left the files as they are, when there was no marker, or
    has unlinked both. An operation that raises has touched neither file,
    unless it was cut short between the two: by a write of [start] that
    failed or by the second unlink of [stop]. And [status] reads a marker
    without metadata, or with metadata that is corrupt or not an object,
    as an empty object, whenever the probe of the pid answers. *)
Theorem stream_artifacts_paired (args : StreamArgs) (fs : Files) (os : OS) :
  match _run_stream_start args fs os with
  | (Ok s, fs', _) =>
      pid_file fs' = Some (PidText (started_pid s))
      /\ exists started_at input_value cmd,
           meta_file fs'
           = Some (MetaJson (stream_meta (started_pid s) started_at
                               input_value (started_target s) cmd))
  | (Raise err, fs', os') =>
      fs' = fs
      \/ (exists pid name,
            write_pid pid os' = WriteFailed name true
            /\ err = OtherError name
            /\ fs' = {| pid_file := Some PidInvalid;
                        meta_file := meta_file fs |})
      \/ (exists pid meta name emptied,
            write_pid pid os' = Written
            /\ write_meta meta os' = WriteFailed name emptied
            /\ err = OtherError name
            /\ pid_file fs' = Some (PidText pid)
            /\ meta_file fs'
               = if emptied then Some MetaCorrupt else meta_file fs)
  end
  /\ (let '(res, fs', os') := _run_stream_stop fs os in
      match res with
      | Ok _ =>
          (pid_file fs = None /\ fs' = fs)
          \/ (pid_file fs <> None
              /\ pid_file fs' = None /\ meta_file fs' = None)
      | Raise err =>
          fs' = fs
          \/ (exists name,
                unlink_pid os' = None /\ unlink_meta os' = Some name
                /\ err = OtherError name
                /\ pid_file fs' = None /\ meta_file fs' = meta_file fs)
      end)
  /\ (forall pid,
        pid_file fs = Some (PidText pid) ->
        meta_file fs = None \/ meta_file fs = Some MetaCorrupt
        \/ (exists j, meta_file fs = Some (MetaJson j)
                      /\ forall d, j <> JDict d) ->
        _run_stream_status fs os
        = match _pid_running pid os with
          | Ok running =>
              Ok {| st_running := running; st_error := None;
                    st_pid := Some pid; st_meta := Some (JDict []) |}
          | Raise err => Raise err
          end).
Proof.
  split_and!.
  - apply start_files.
  - pose proof (stop_files fs os) as Hstop.
    destruct (_run_stream_stop fs os) as [[[r|err] fs'] os'].
    + destruct Hstop as [?|[? ->]]; [by left | by right].
    + destruct Hstop as [?|(name & ? & ? & ? & ->)]; [by left|].
      right. by exists name.
  - intros pid Hpid Hmeta. unfold _run_stream_status. rewrite Hpid.
    destruct (_pid_running pid os); [|done].
    destruct Hmeta as [-> | [-> | (j & -> & Hj)]]; try done.
    destruct j; try done. by destruct (Hj d).
Qed.

End StreamFacts.

(** ** The properties on the sample inputs *)

Section Witnesses.
Import Cookies Harvester Endpoints Stream Samples.



(** Three new rows per cycle and a limit of 7: the call returns 7 rows and
    leaves the page after 3 extractions and 2 scrolls. *)
Lemma harvester_limit_witness :
  Z.of_nat (length (_collect_with_scroll three_per_cycle timeline_wheel
                      timeline_wait fresh_timeline 7 14 750).1) = 7
  /\ (_collect_with_scroll three_per_cycle timeline_wheel timeline_wait
        fresh_timeline 7 14 750).2
     = {| scrolls := 2; extractions := 3 |}.
Proof.
  pose proof (harvester_limit_and_termination three_per_cycle timeline_wheel
                timeline_wait fresh_timeline 7 14 750) as Hspec.
  cbv zeta in Hspec.
  destruct (_collect_with_scroll three_per_cycle timeline_wheel timeline_wait
              fresh_timeline 7 14 750) as [result page'] eqn:Hrun.
  cbn [fst snd]. split.
  - destruct Hspec as [(k & _ & _ & _ & _ & Hlen & _) | (Hless & _)].
    + apply Hlen. lia.
    + assert ((2 < Z.to_nat 14)%nat) as Hturn by lia.
      apply Hless in Hturn. vm_compute in Hturn. discriminate.
  - vm_compute in Hrun. by injection Hrun as _ <-.
Defined.

(** A repeated key keeps its first row and the keyless row is dropped. *)
Lemma harvester_dedup_witness :
  NoDup (map row_key (_collect_with_scroll changing_payload timeline_wheel
                        timeline_wait fresh_timeline 10 3 750).1)
  /\ (_collect_with_scroll changing_payload timeline_wheel timeline_wait
        fresh_timeline 10 3 750).1
     = [tweet 1 "first seen at 0"; tweet 2 "other"].
Proof.
  destruct (harvester_first_occurrence_wins changing_payload timeline_wheel
              timeline_wait fresh_timeline 10 3 750)
    as (k & _ & _ & _ & Hnodup & _).
  split; [exact Hnodup | reflexivity].
Defined.

(** Five static rows, a limit of 10 and 3 cycles: the five rows come
    back, from the first call and from a second one. *)
Lemma harvester_static_witness :
  (_collect_with_scroll static_five timeline_wheel timeline_wait
     fresh_timeline 10 3 750).1 = five_rows
  /\ (_collect_with_scroll static_five timeline_wheel timeline_wait
        {| scrolls := 3; extractions := 3 |} 10 3 750).1 = five_rows.
Proof.
  pose proof (proj1 (harvester_static_view_idempotent static_five
                       timeline_wheel timeline_wait fresh_timeline 10 3 750)
                five_rows (fun p => eq_refl)) as Hspec.
  destruct (_collect_with_scroll static_five timeline_wheel timeline_wait
              fresh_timeline 10 3 750) as [first page1] eqn:Hfirst.
  assert (page1 = {| scrolls := 3; extractions := 3 |}) as ->.
  { vm_compute in Hfirst. by injection Hfirst as _ <-. }
  destruct (_collect_with_scroll static_five timeline_wheel timeline_wait
              {| scrolls := 3; extractions := 3 |} 10 3 750)
    as [second page2].
  destruct Hspec as (Hsame & _ & Hrows). cbn [fst].
  assert (first = five_rows) as Hfive.
  { apply Hrows; [lia | | | vm_compute; discriminate].
    - apply (bool_decide_unpack _). vm_compute. exact I.
    - apply (bool_decide_unpack _). vm_compute. exact I. }
  split; [exact Hfive | by rewrite <- Hsame].
Defined.

(** The load path drops a non-dict element and a record without value or
    domain. *)
Lemma cookie_filter_witness :
  _load_saved_session_cookies
    (FileList [ItemDict saved_cookie; ItemOther; ItemDict [("name", VStr "x")]])
  = [saved_cookie].
Proof.
  rewrite (proj1 cookie_filter_characterization). reflexivity.
Defined.


(** C6 as stated fails twice. With a live stream recorded but ffmpeg no
    longer on the search path, [start] raises the missing-ffmpeg error, not
    the already-running one. And a [start] whose metadata write fails
    raises after it has written the PID marker. *)
Lemma stream_start_without_ffmpeg_counterexample :
  ~ (is_already_running
       (_run_stream_start stream_args marker_4242
          streaming_os_without_ffmpeg).1.1 = true
     <-> exists pid, pid_file marker_4242 = Some (PidText pid)
                     /\ _pid_running pid streaming_os_without_ffmpeg = Ok true)
  /\ (exists err,
        (_run_stream_start stream_args no_marker unencodable_os).1.1
        = Raise err)
  /\ pid_file (_run_stream_start stream_args no_marker unencodable_os).1.2
     = Some (PidText 5000).
Proof.
  split_and!.
  - intros [_ Hclaim].
    assert (is_already_running
              (_run_stream_start stream_args marker_4242
                 streaming_os_without_ffmpeg).1.1 = true) as Hrun.
    { apply Hclaim. exists 4242. split; reflexivity. }
    vm_compute in Hrun. discriminate.
  - eexists. vm_compute. reflexivity.
  - vm_compute. reflexivity.
Defined.

(** A second [start] while pid 4242 streams raises the error that names
    4242 and changes nothing. *)
Lemma stream_start_witness :
  _run_stream_start stream_args marker_4242 streaming_os
  = (Raise (already_running 4242), marker_4242, streaming_os).
Proof.
  pose proof (stream_start_fails_fast_when_running stream_args marker_4242
                streaming_os) as Hspec.
  destruct (_run_stream_start stream_args marker_4242 streaming_os)
    as [[res fs'] os'].
  destruct Hspec as (_ & Hiff & Hsame & _).
  destruct (Hsame 4242 eq_refl) as (-> & -> & ->); [|reflexivity].
  apply Hiff. split; [reflexivity|]. exists 4242. split; reflexivity.
Defined.



(** C8 as stated fails: the [start] whose metadata write fails leaves the
    PID marker written next to a metadata record that is empty, and the
    [stop] whose second unlink fails leaves the metadata record without the
    marker. *)
Lemma stream_pair_broken_counterexample :
  (_run_stream_start stream_args no_marker unencodable_os).1.2
  = {| pid_file := Some (PidText 5000); meta_file := Some MetaCorrupt |}
  /\ (_run_stream_stop marker_4242 protected_os).1.2
     = {| pid_file := None; meta_file := meta_file marker_4242 |}
  /\ meta_file marker_4242 <> None.
Proof. split_and!; [vm_compute; reflexivity | reflexivity | discriminate]. Defined.

(** A marker without metadata is read with an empty metadata object. *)
Lemma stream_pair_witness :
  _run_stream_status marker_without_meta streaming_os
  = Ok {| st_running := true; st_error := None; st_pid := Some 4242;
          st_meta := Some (JDict []) |}.
Proof.
  destruct (stream_artifacts_paired stream_args marker_without_meta
              streaming_os) as (_ & _ & Hstatus).
  apply (Hstatus 4242); [reflexivity | by left].
Defined.

(** C10 as stated fails: [tweet_replies --limit 200] hands 202 to the
    harvester, more than its cap of 200 and not the clamped limit. *)
Lemma tweet_replies_limit_counterexample :
  exists c,
    call_of (fun s => s) tweet_replies replies_args = Ok c
    /\ hc_limit c = 202
    /\ ~ hc_limit c <= cap_of tweet_replies
    /\ hc_limit c
       <> Z.max 1 (Z.min (a_limit replies_args) (cap_of tweet_replies)).
Proof.
  eexists. split; [reflexivity|]. cbn. split; [reflexivity|]. split; lia.
Defined.

(** [user_last_tweets --limit -5] harvests with a limit of 1. *)
Lemma endpoint_limit_witness :
  exists c,
    call_of (fun s => s) user_last_tweets negative_limit_args = Ok c
    /\ hc_limit c = 1.
Proof.
  eexists. split; [reflexivity|].
  destruct (endpoint_limit_clamped (fun s => s) user_last_tweets
              negative_limit_args _ eq_refl) as (_ & Hlimit & _).
  exact Hlimit.
Defined.

End Witnesses.

(** ** Strings *)

Section StringFacts.

Lemma append_cons (a : ascii) (s t : string) :
  String a s +:+ t = String a (s +:+ t).
Proof. reflexivity. Qed.

Lemma append_nil_r (s : string) : s +:+ "" = s.
Proof. induction s as [|a s IH]; [done|]. by rewrite append_cons, IH. Qed.

Lemma append_assoc (a b c : string) : (a +:+ b) +:+ c = a +:+ (b +:+ c).
Proof. induction a as [|x a IH]; [done|]. by rewrite !append_cons, IH. Qed.

Lemma append_empty (a b : string) : a +:+ b = "" -> a = "" /\ b = "".
Proof. destruct a; [done|]. by rewrite append_cons. Qed.

Lemma rev_app_append (s1 s2 : string) :
  String.rev_app s1 s2 = String.rev s1 +:+ s2.
Proof.
  revert s2. induction s1 as [|a s1 IH]; intros s2; [done|].
  unfold String.rev. cbn [String.rev_app].
  rewrite (IH (String a s2)), (IH (String a "")), append_assoc.
  by rewrite append_cons.
Qed.

Lemma rev_cons (a : ascii) (s : string) :
  String.rev (String a s) = String.rev s +:+ String a "".
Proof. unfold String.rev at 1. cbn [String.rev_app]. apply rev_app_append. Qed.

Lemma rev_append (a b : string) :
  String.rev (a +:+ b) = String.rev b +:+ String.rev a.
Proof.
  induction a as [|x a IH].
  - change ("" +:+ b) with b. by rewrite append_nil_r.
  - by rewrite append_cons, !rev_cons, IH, append_assoc.
Qed.

Lemma prefix_append (s t : string) : String.prefix s (s +:+ t) = true.
Proof.
  induction s as [|a s IH]; [by destruct t|].
  rewrite append_cons. cbn [String.prefix]. by destruct (ascii_dec a a).
Qed.

(** *** Characters *)

Lemma join_app (a b : list string) : join (a ++ b) = join a +:+ join b.
Proof.
  induction a as [|c a IH]; [done|].
  cbn [app]. unfold join in *. cbn [fold_right]. by rewrite IH, append_assoc.
Qed.

Lemma join_cons (c : string) (cs : list string) : join (c :: cs) = c +:+ join cs.
Proof. reflexivity. Qed.

Lemma chars_cons (a : ascii) (s : string) :
  chars (String a s)
  = match chars s with
    | c :: cs =>
        if starts_inside c then String a c :: cs else String a "" :: c :: cs
    | [] => [String a ""]
    end.
Proof. reflexivity. Qed.

Lemma join_chars (s : string) : join (chars s) = s.
Proof.
  induction s as [|a s IH]; [done|]. rewrite chars_cons.
  destruct (chars s) as [|c cs].
  - cbn in IH. by subst s.
  - rewrite join_cons in IH.
    destruct (starts_inside c); rewrite !join_cons, ?append_cons, IH; done.
Qed.

Lemma chars_head (s c : string) (cs : list string) :
  chars s = c :: cs -> starts_inside c = starts_inside s.
Proof.
  destruct s as [|a s]; [done|]. rewrite chars_cons.
  destruct (chars s) as [|c' cs']; [by intros [= <- _]|].
  by destruct (starts_inside c'); intros [= <- _].
Qed.

Lemma chars_nil (s : string) : chars s = [] -> s = "".
Proof. intros Hs. by rewrite <- (join_chars s), Hs. Qed.

Lemma lead_chars_well_split (cs : list string) :
  Forall (fun c => is_lead_char c = true) cs -> well_split cs.
Proof.
  intros [|c rest Hc Hrest]; [done|]. split; [|done].
  unfold is_lead_char in Hc. by apply andb_true_iff in Hc as [? _].
Qed.

Lemma chars_well_split (s : string) : well_split (chars s).
Proof.
  induction s as [|a s IH]; [done|]. rewrite chars_cons.
  destruct (chars s) as [|c cs]; [done|]. destruct IH as [Hc Hcs].
  destruct (starts_inside c) eqn:Hin.
  - split; [|done]. destruct c as [|b c]; [done|]. cbn in *. by rewrite Hin.
  - split; [done|]. constructor; [|done].
    unfold is_lead_char. by rewrite Hc, Hin.
Qed.

Lemma well_split_app_r (a b : list string) : well_split (a ++ b) -> well_split b.
Proof.
  destruct a as [|c a]; [done|]. intros [_ Hrest].
  apply Forall_app in Hrest as [_ Hb]. by apply lead_chars_well_split.
Qed.

Lemma well_split_app_l (a b : list string) : well_split (a ++ b) -> well_split a.
Proof.
  destruct a as [|c a]; [done|]. intros [Hc Hrest].
  apply Forall_app in Hrest as [Ha _]. done.
Qed.

Lemma chars_char (c t : string) :
  is_char c = true -> starts_inside t = false ->
  chars (c +:+ t) = c :: chars t.
Proof.
  intros Hc Ht. destruct c as [|a r]; [done|]. cbn [is_char] in Hc.
  revert a. induction r as [|b r IH]; intros a.
  - change (String a "" +:+ t) with (String a t). rewrite chars_cons.
    destruct (chars t) as [|c' cs] eqn:Hchars; [done|].
    by rewrite (chars_head _ _ _ Hchars), Ht.
  - cbn [continues] in Hc. apply andb_true_iff in Hc as [Hb Hr].
    rewrite append_cons, chars_cons, (IH Hr b). cbn [starts_inside].
    by rewrite Hb.
Qed.

Lemma lead_chars_join (cs : list string) :
  Forall (fun c => is_lead_char c = true) cs ->
  chars (join cs) = cs /\ starts_inside (join cs) = false.
Proof.
  induction 1 as [|c cs Hc _ [IHchars IHstart]]; [done|].
  unfold is_lead_char in Hc. apply andb_true_iff in Hc as [Hchar Hlead].
  apply negb_true_iff in Hlead. rewrite join_cons. split.
  - by rewrite chars_char, IHchars.
  - destruct c; [done|]. by rewrite append_cons.
Qed.

Lemma chars_join (cs : list string) : well_split cs -> chars (join cs) = cs.
Proof.
  destruct cs as [|c cs]; [done|]. intros [Hc Hcs].
  destruct (lead_chars_join cs Hcs) as [Hchars Hstart].
  by rewrite join_cons, chars_char, Hchars.
Qed.

Lemma chars_app (a b : string) :
  starts_inside b = false -> chars (a +:+ b) = chars a ++ chars b.
Proof.
  intros Hb. rewrite <- (join_chars a) at 1.
  pose proof (chars_well_split a) as Hsplit.
  induction (chars a) as [|c cs IH]; [done|].
  assert (well_split cs) as Hcs.
  { by apply (well_split_app_r [c]). }
  destruct Hsplit as [Hc Hlead].
  rewrite join_cons, append_assoc.
  destruct (lead_chars_join cs Hlead) as [_ Hstart].
  rewrite chars_char, (IH Hcs); [done..|].
  destruct cs as [|c' cs']; [done|].
  rewrite join_cons in *. destruct c'; [|done].
  apply Forall_cons in Hlead as [Hc' _]. done.
Qed.

(** A string that does not begin inside a character is split into
    characters that all start with a leading byte. *)
Lemma chars_lead (s : string) :
  starts_inside s = false -> Forall (fun c => is_lead_char c = true) (chars s).
Proof.
  intros Hs. pose proof (chars_well_split s) as Hsplit.
  destruct (chars s) as [|c cs] eqn:Hchars; [done|].
  destruct Hsplit as [Hc Hcs]. constructor; [|done].
  unfold is_lead_char. by rewrite Hc, (chars_head _ _ _ Hchars), Hs.
Qed.

(** *** White space at the ends *)

Lemma drop_while_split {A} (f : A -> bool) (l : list A) :
  exists dropped, l = dropped ++ drop_while f l.
Proof.
  induction l as [|x l [dropped IH]]; [by exists []|]. cbn.
  destruct (f x); [|by exists []]. exists (x :: dropped). by rewrite IH at 1.
Qed.

Lemma drop_while_head {A} (f : A -> bool) (l : list A) (x : A) :
  head (drop_while f l) = Some x -> f x = false.
Proof.
  induction l as [|y l IH]; [done|]. cbn.
  destruct (f y) eqn:Hy; [done|]. by intros [= <-].
Qed.

Lemma drop_while_fixed {A} (f : A -> bool) (l : list A) :
  (forall x, head l = Some x -> f x = false) -> drop_while f l = l.
Proof. destruct l as [|y l]; [done|]. intros Hy. cbn. by rewrite Hy. Qed.

Lemma trim_split (cs : list string) :
  exists before after, cs = before ++ trim cs ++ after.
Proof.
  unfold trim. destruct (drop_while_split is_space cs) as [before Hb].
  destruct (drop_while_split is_space (rev (drop_while is_space cs)))
    as [after Ha].
  exists before, (rev after). rewrite Hb at 1. f_equal.
  apply (f_equal (@rev string)) in Ha.
  by rewrite rev_involutive, rev_app_distr in Ha.
Qed.

Lemma trim_ends (cs : list string) :
  (forall c, head (trim cs) = Some c -> is_space c = false)
  /\ (forall c, head (rev (trim cs)) = Some c -> is_space c = false).
Proof.
  split.
  - intros c Hc. apply (drop_while_head is_space cs).
    unfold trim in Hc.
    destruct (drop_while_split is_space (rev (drop_while is_space cs)))
      as [after Ha].
    apply (f_equal (@rev string)) in Ha.
    rewrite rev_involutive, rev_app_distr in Ha. rewrite Ha.
    destruct (rev (drop_while is_space (rev (drop_while is_space cs))));
      [done|]. exact Hc.
  - intros c. unfold trim. rewrite rev_involutive. apply drop_while_head.
Qed.

Lemma trim_fixed (cs : list string) :
  (forall c, head cs = Some c -> is_space c = false) ->
  (forall c, head (rev cs) = Some c -> is_space c = false) ->
  trim cs = cs.
Proof.
  intros Hfirst Hlast. unfold trim.
  rewrite (drop_while_fixed _ cs Hfirst), (drop_while_fixed _ _ Hlast).
  apply rev_involutive.
Qed.

Lemma trim_idemp (cs : list string) : trim (trim cs) = trim cs.
Proof. destruct (trim_ends cs). by apply trim_fixed. Qed.

Lemma trim_well_split (cs : list string) : well_split cs -> well_split (trim cs).
Proof.
  intros Hcs. destruct (trim_split cs) as (before & after & Heq).
  rewrite Heq in Hcs. by apply well_split_app_r, well_split_app_l in Hcs.
Qed.

Lemma chars_strip (s : string) : chars (strip s) = trim (chars s).
Proof. apply chars_join, trim_well_split, chars_well_split. Qed.

(** Stripping twice is stripping once. *)
Lemma strip_idemp (s : string) : strip (strip s) = strip s.
Proof. unfold strip at 1. by rewrite chars_strip, trim_idemp. Qed.

(** What [strip] leaves is empty or has a character at each end that is no
    white space. *)
Lemma strip_ends (s : string) :
  (forall c, head (chars (strip s)) = Some c -> is_space c = false)
  /\ (forall c, head (rev (chars (strip s))) = Some c -> is_space c = false).
Proof. rewrite chars_strip. apply trim_ends. Qed.

Lemma strip_fixed (s : string) :
  (forall c, head (chars s) = Some c -> is_space c = false) ->
  (forall c, head (rev (chars s)) = Some c -> is_space c = false) ->
  strip s = s.
Proof.
  intros Hfirst Hlast. unfold strip.
  by rewrite trim_fixed, join_chars.
Qed.

Lemma strip_starts (s : string) :
  starts_inside s = false -> starts_inside (strip s) = false.
Proof.
  intros Hs. apply chars_lead in Hs.
  destruct (trim_split (chars s)) as (before & after & Heq).
  rewrite Heq in Hs. apply Forall_app in Hs as [_ Hs].
  apply Forall_app in Hs as [Hs _]. by apply lead_chars_join.
Qed.

(** Two stripped strings that are not empty, joined at a character
    boundary, make a stripped string. *)
Lemma strip_append (a b : string) :
  strip a = a -> strip b = b -> a <> "" -> b <> "" ->
  starts_inside b = false ->
  strip (a +:+ b) = a +:+ b.
Proof.
  intros Ha Hb Hane Hbne Hstart.
  destruct (strip_ends a) as [Hafirst _], (strip_ends b) as [_ Hblast].
  rewrite Ha in Hafirst. rewrite Hb in Hblast.
  assert (chars a <> []) as Hca by (by intros ?%chars_nil).
  assert (chars b <> []) as Hcb by (by intros ?%chars_nil).
  apply strip_fixed; rewrite chars_app by done.
  - destruct (chars a); done.
  - rewrite rev_app_distr. destruct (rev (chars b)) eqn:Hrev; [|done].
    apply (f_equal (@rev string)) in Hrev. by rewrite rev_involutive in Hrev.
Qed.

End StringFacts.

(** * Further properties of the code *)

(** ** The cookie store *)

Section CookieStoreFacts.
Import Cookies.

Lemma dicts_of_dicts (cs : list dict) : dicts_of (map ItemDict cs) = cs.
Proof.
  unfold dicts_of. induction cs as [|c cs IH]; [done|].
  cbn [map omap list_omap]. by rewrite IH.
Qed.

Lemma filter_retained_twice (cs : list dict) :
  filter dict_retained (filter dict_retained cs) = filter dict_retained cs.
Proof. rewrite list_filter_filter. apply list_filter_iff. tauto. Qed.


(** The dict built for a jar cookie shows the attributes it was built
    from. *)
Lemma jar_dict_fields (c : JarCookie) :
  field (jar_dict c) "domain" "" = attr_or (jc_domain c) ""
  /\ field (jar_dict c) "name" "" = attr_or (jc_name c) ""
  /\ field (jar_dict c) "value" "" = attr_or (jc_value c) ""
  /\ field (jar_dict c) "path" "/" = attr_or (jc_path c) "/".
Proof.
  unfold field, jar_dict, or_. cbn.
  split_and!; [by destruct (attr_or _ _)..|].
  unfold attr_or. by destruct (jc_path c) as [[|a s]|].
Qed.

Lemma jar_dict_retained (c : JarCookie) :
  dict_retained (jar_dict c) <-> jar_retained c.
Proof.
  unfold dict_retained, jar_retained.
  destruct (jar_dict_fields c) as (-> & -> & -> & _). done.
Qed.

(** Whatever the browser source returns passes the filter of the
    persisted document: written to the file and loaded back, the cookies of
    the browser come out unchanged. *)
Theorem browser_cookies_survive_reload env browser profile name cs :
  _load_x_cookies env browser profile name = Ok cs ->
  Forall dict_retained cs
  /\ _load_saved_session_cookies (FileList (map ItemDict cs)) = cs.
Proof.
  intros Hload.
  assert (exists jar, cs = map jar_dict (filter jar_retained jar)) as [jar ->].
  { unfold _load_x_cookies in Hload. repeat case_match; simplify_eq.
    eexists. symmetry. rewrite <- jar_loop_filter. eassumption. }
  assert (Forall dict_retained (map jar_dict (filter jar_retained jar))) as Hall.
  { apply Forall_forall. intros d Hd.
    apply list_elem_of_fmap in Hd as [c [-> Hc]].
    apply list_elem_of_filter in Hc as [Hc _]. by apply jar_dict_retained. }
  split; [done|]. cbn [_load_saved_session_cookies].
  rewrite load_loop_filter, dicts_of_dicts.
  clear Hload. induction Hall as [|d ds Hd _ IH]; [done|].
  rewrite filter_cons, decide_True by done. by rewrite IH.
Qed.

End CookieStoreFacts.

Section SessionRequirementFacts.
Import Cookies.


Lemma first_existing_skips (env : Env) (skipped rest : list string) :
  Forall (fun c => path_exists env c = inl false) skipped ->
  first_existing env (skipped ++ rest) = first_existing env rest.
Proof.
  induction 1 as [|c skipped Hc _ IH]; [done|].
  cbn [app first_existing]. by rewrite Hc.
Qed.

(** [_resolve_cookie_file] answers [None] exactly when no profile path is
    configured. Otherwise it answers the expanded profile path itself when
    that is a file, else the first of [root/<profile name>/Cookies],
    [root/Default/Cookies] and [root/Cookies] that exists, the ones before
    it not existing; it raises the could-not-locate error when none of the
    three exists, and the exception of [expanduser], [is_file] or [exists]
    at the first of these calls that fails. *)
Theorem resolve_cookie_file_outcome (env : Env) (browser : string)
    (profile : option string) (name : string) :
  (profile = None \/ profile = Some "" <->
   _resolve_cookie_file env browser profile name = Ok None)
  /\ (forall p failure,
        profile = Some p -> p <> "" -> expanduser env p = inr failure ->
        _resolve_cookie_file env browser profile name
        = Raise (OtherError failure))
  /\ (forall p root,
        profile = Some p -> p <> "" -> expanduser env p = inl root ->
        let candidates :=
          [joinpath env (joinpath env root name) "Cookies";
           joinpath env (joinpath env root "Default") "Cookies";
           joinpath env root "Cookies"] in
        (is_file env root = inl true ->
         _resolve_cookie_file env browser profile name = Ok (Some root))
        /\ (forall failure,
              is_file env root = inr failure ->
              _resolve_cookie_file env browser profile name
              = Raise (OtherError failure))
        /\ (is_file env root = inl false ->
            forall skipped path rest,
              candidates = skipped ++ path :: rest ->
              Forall (fun c => path_exists env c = inl false) skipped ->
              (path_exists env path = inl true ->
               _resolve_cookie_file env browser profile name = Ok (Some path))
              /\ (forall failure,
                    path_exists env path = inr failure ->
                    _resolve_cookie_file env browser profile name
                    = Raise (OtherError failure)))
        /\ (is_file env root = inl false ->
            Forall (fun c => path_exists env c = inl false) candidates ->
            _resolve_cookie_file env browser profile name
            = Raise (CliError ("Could not locate Cookies DB under " +:+ root
                               +:+ " for browser=" +:+ browser +:+ ".")))).
Proof.
  unfold _resolve_cookie_file. split_and!.
  - destruct profile as [[|a p]|]; [split; auto | | split; auto].
    cbn [str_empty]. split; [by intros [|]|].
    by repeat case_match.
  - intros p failure -> Hp Hroot. destruct p; [done|]. cbn [str_empty].
    by rewrite Hroot.
  - intros p root -> Hp Hroot. destruct p; [done|].
    cbn [str_empty]. rewrite Hroot.
    set (candidates := [joinpath env (joinpath env root name) "Cookies";
                        joinpath env (joinpath env root "Default") "Cookies";
                        joinpath env root "Cookies"]).
    split_and!.
    + by intros ->.
    + by intros failure ->.
    + intros -> skipped path rest -> Hskipped.
      rewrite (first_existing_skips env skipped (path :: rest) Hskipped).
      cbn [first_existing]. split; [by intros -> | by intros failure ->].
    + intros -> Hnone.
      rewrite <- (app_nil_r candidates).
      by rewrite (first_existing_skips env candidates [] Hnone).
Qed.

End SessionRequirementFacts.

Section MergeFacts.
Import Cookies.

Lemma merge_inv_keys d : merge_inv d -> omap merge_key (ODict.values d) = ODict.keys d.
Proof.
  intros [_ Hall]. unfold ODict.values, ODict.keys.
  induction Hall as [|[k r] d Hk _ IH]; [done|].
  cbn in Hk. cbn [map omap list_omap fst snd]. by rewrite Hk, IH.
Qed.

Lemma odict_set_length {K V} `{EqDecision K} (k : K) (v : V) (d : ODict.t K V) :
  (length (ODict.set k v d) <= S (length d))%nat.
Proof.
  induction d as [|[k' v'] d IH]; cbn; [lia|].
  destruct (decide (k' = k)); cbn; lia.
Qed.

Lemma merge_loop_length l : forall d,
  (length (fold_left merge_step l d) <= length d + length l)%nat.
Proof.
  induction l as [|src l IH]; intros d; cbn [fold_left length]; [lia|].
  etrans; [apply IH|]. unfold merge_step.
  destruct (merge_key src); [|lia].
  pose proof (odict_set_length p src d). lia.
Qed.

(** Records with distinct keys that are not yet filed are appended as they
    come. *)
Lemma merge_loop_new l : forall d,
  Forall (fun src => is_Some (merge_key src)) l ->
  NoDup (omap merge_key l) ->
  (forall k, k ∈ omap merge_key l -> k ∉ ODict.keys d) ->
  ODict.values (fold_left merge_step l d) = ODict.values d ++ l.
Proof.
  induction l as [|src l IH]; intros d Hkeyed Hnd Hnew.
  { cbn. by rewrite app_nil_r. }
  apply Forall_cons in Hkeyed as [[k Hk] Hkeyed].
  cbn [omap list_omap] in Hnd, Hnew. rewrite Hk in Hnd, Hnew.
  apply NoDup_cons in Hnd as [Hk_l Hnd].
  cbn [fold_left]. unfold merge_step at 2. rewrite Hk.
  rewrite odict_set_new.
  2:{ destruct (ODict.mem k d) eqn:Hm; [|done].
      apply odict_mem_keys in Hm. destruct (Hnew k); [left | done]. }
  rewrite IH; [| done | done |].
  - unfold ODict.values. rewrite map_app. cbn. by rewrite <- app_assoc.
  - intros k' Hk'. unfold ODict.keys. rewrite map_app. cbn.
    rewrite not_elem_of_app, not_elem_of_cons. split_and!.
    + apply Hnew. by right.
    + by intros ->.
    + apply not_elem_of_nil.
Qed.

(** The merged list files no two records under one key and holds no more
    records than the two inputs together. A list whose records all have a
    key, each a different one, merges with nothing to itself, so merging is
    idempotent: merging the result again with nothing changes nothing. *)
Theorem merge_result_keys_distinct (primary secondary : list dict) :
  let merged := _merge_cookie_sets primary secondary in
  NoDup (omap merge_key merged)
  /\ Forall (fun src => is_Some (merge_key src)) merged
  /\ (length merged <= length primary + length secondary)%nat
  /\ _merge_cookie_sets merged [] = merged
  /\ (Forall (fun src => is_Some (merge_key src)) primary ->
      NoDup (omap merge_key primary) ->
      _merge_cookie_sets primary [] = primary).
Proof.
  intros merged.
  assert (forall l, Forall (fun src => is_Some (merge_key src)) l ->
                    NoDup (omap merge_key l) ->
                    _merge_cookie_sets l [] = l) as Hid.
  { intros l Hkeyed Hnd. unfold _merge_cookie_sets. rewrite app_nil_l.
    rewrite merge_loop_new; [done.. |]. intros k _. apply not_elem_of_nil. }
  destruct (merge_loop (secondary ++ primary) ODict.empty) as [Hinv _].
  { split; [apply NoDup_nil_2 | constructor]. }
  assert (NoDup (omap merge_key merged)) as Hnd.
  { unfold merged, _merge_cookie_sets. rewrite merge_inv_keys by done.
    apply Hinv. }
  assert (Forall (fun src => is_Some (merge_key src)) merged) as Hkeyed.
  { unfold merged, _merge_cookie_sets, ODict.values.
    destruct Hinv as [_ Hall]. apply Forall_forall. intros src Hsrc.
    apply list_elem_of_fmap in Hsrc as [[k r] [-> Hin]].
    rewrite Forall_forall in Hall. specialize (Hall _ Hin). cbn in *.
    by eexists. }
  split_and!; [done | done | | by apply Hid | apply Hid].
  unfold merged, _merge_cookie_sets, ODict.values. rewrite length_map.
  etrans; [apply merge_loop_length|]. rewrite length_app. cbn. lia.
Qed.

End MergeFacts.

(** ** The harvester: bounds and monotonicity *)

Section HarvestBounds.
Import Harvester.
Context {Page : Type}.
Variable extractor : Page -> list row * Page.
Variable wheel : Page -> Page.
Variable wait_for_timeout : Z -> Page -> Page.

Abbreviation extracted := (extracted extractor wheel wait_for_timeout).
Abbreviation turned := (turned extractor wheel wait_for_timeout).
Abbreviation collect := (_collect_with_scroll extractor wheel wait_for_timeout).

(** One more turn adds the rows of one more extraction at the end. *)
Lemma extracted_snoc pause k : forall page,
  extracted (S k) pause page
  = extracted k pause page ++ (extractor (turned k pause page)).1.
Proof.
  induction k as [|k IH]; intros page.
  { cbn. destruct (extractor page). cbn. by rewrite app_nil_r. }
  rewrite (extracted_S _ _ _ (S k)), IH, (extracted_S _ _ _ k).
  by rewrite app_assoc.
Qed.

Lemma extracted_prefix pause page (j k : nat) :
  (j <= k)%nat -> extracted j pause page `prefix_of` extracted k pause page.
Proof.
  induction 1 as [|k _ IH]; [done|].
  etrans; [apply IH|]. rewrite extracted_snoc. by apply prefix_app_r.
Qed.

(** Rows met later never change what is already kept. *)
Lemma unique_rows_app (a b : list row) :
  unique_rows a `prefix_of` unique_rows (a ++ b).
Proof.
  unfold unique_rows. rewrite fold_left_app.
  rewrite (fold_see_values b) by apply fold_see_inv, seen_inv_empty.
  by eexists.
Qed.

Lemma unique_after_prefix pause page (j k : nat) :
  (j <= k)%nat ->
  unique_rows (extracted j pause page)
  `prefix_of` unique_rows (extracted k pause page).
Proof.
  intros [rest ->]%(extracted_prefix pause page). apply unique_rows_app.
Qed.

(** The two ways a call ends, told by the rows it returns. *)
Lemma collect_result (page : Page) (limit max_scrolls pause : Z) :
  let unique_after k := unique_rows (extracted k pause page) in
  let result := (collect page limit max_scrolls pause).1 in
  (exists k : nat,
     (k < Z.to_nat max_scrolls)%nat
     /\ limit <= Z.of_nat (length (unique_after (S k)))
     /\ (forall j : nat, (j < k)%nat ->
           Z.of_nat (length (unique_after (S j))) < limit)
     /\ result = slice_to limit (unique_after (S k)))
  \/ ((forall j : nat, (j < Z.to_nat max_scrolls)%nat ->
         Z.of_nat (length (unique_after (S j))) < limit)
      /\ result = unique_after (Z.to_nat max_scrolls)).
Proof.
  intros unique_after result. unfold result, Harvester._collect_with_scroll.
  assert (forall k, length (fold_left see (extracted k pause page) ODict.empty)
                    = length (unique_after k)) as Hlen.
  { intros k. unfold unique_after, unique_rows, ODict.values.
    by rewrite length_map. }
  destruct (scroll_loop_spec extractor wheel wait_for_timeout limit pause
              (Z.to_nat max_scrolls) ODict.empty page)
    as [(k & Hk & Hge & Hlt & ->) | (Hlt & ->)]; cbn [fst].
  - left. exists k. rewrite Hlen in Hge. split_and!; try done.
    intros j Hj. rewrite <- Hlen. by apply Hlt.
  - right. split.
    + intros j Hj. rewrite <- Hlen. by apply Hlt.
    + fold (unique_rows (extracted (Z.to_nat max_scrolls) pause page)).
      fold (unique_after (Z.to_nat max_scrolls)).
      destruct (Z.to_nat max_scrolls) as [|n] eqn:Hn.
      * unfold unique_after. cbn. unfold slice_to.
        by destruct (0 <=? limit); rewrite take_nil.
      * apply slice_to_short. specialize (Hlt n). rewrite Hlen in Hlt. lia.
Qed.

Lemma unique_rows_subset (rows : list row) : unique_rows rows ⊆ rows.
Proof.
  rewrite unique_rows_keyed_first_seen. intros r Hr.
  destruct (keyed_first_seen_first rows r Hr) as [_ [a Ha]].
  apply list_find_Some in Ha as [Ha _]. by eapply list_elem_of_lookup_2.
Qed.

(** The result never holds more than [limit] rows when the limit is not
    negative, and it holds only rows that were extracted within the budget.
    A budget of no turns returns nothing and leaves the page untouched. A
    limit of zero or less, with at least one turn, makes the call read the
    page once and return without scrolling. *)
Theorem harvester_result_bounds (page : Page) (limit max_scrolls pause_ms : Z) :
  let result := (collect page limit max_scrolls pause_ms).1 in
  (0 <= limit -> Z.of_nat (length result) <= limit)
  /\ result ⊆ extracted (Z.to_nat max_scrolls) pause_ms page
  /\ (max_scrolls <= 0 -> collect page limit max_scrolls pause_ms = ([], page))
  /\ (limit <= 0 -> 1 <= max_scrolls ->
      (collect page limit max_scrolls pause_ms).2 = (extractor page).2
      /\ (limit = 0 -> result = [])).
Proof.
  intros result. split_and!.
  - intros Hlimit.
    destruct (collect_result page limit max_scrolls pause_ms)
      as [(k & _ & _ & _ & Hres) | (Hlt & Hres)]; fold result in Hres.
    + rewrite Hres, slice_to_nonneg, length_take by done. lia.
    + rewrite Hres. destruct (Z.to_nat max_scrolls) as [|n]; [cbn; lia|].
      specialize (Hlt n). lia.
  - destruct (collect_result page limit max_scrolls pause_ms)
      as [(k & Hk & _ & _ & Hres) | (_ & Hres)]; fold result in Hres;
      rewrite Hres.
    + destruct (slice_to_take limit
                  (unique_rows (extracted (S k) pause_ms page))) as [m ->].
      etrans; [apply subseteq_take|]. etrans; [apply unique_rows_subset|].
      destruct (extracted_prefix pause_ms page (S k) (Z.to_nat max_scrolls))
        as [rest ->]; [lia|].
      intros r Hr. apply elem_of_app. by left.
    + apply unique_rows_subset.
  - intros Hmax. unfold Harvester._collect_with_scroll.
    replace (Z.to_nat max_scrolls) with 0%nat by lia. cbn.
    unfold slice_to. by destruct (0 <=? limit); rewrite take_nil.
  - intros Hlimit Hmax. unfold result, Harvester._collect_with_scroll.
    destruct (Z.to_nat max_scrolls) as [|n] eqn:Hn; [lia|].
    cbn [Harvester.scroll_loop]. destruct (extractor page) as [rows page1].
    rewrite (proj2 (Z.leb_le limit _)) by lia. cbn [fst snd].
    split; [done|]. intros ->. done.
Qed.

(** A prefix that fits under [n] is a prefix of the first [n] elements. *)
Lemma prefix_take_r {A} (l1 l2 : list A) (n : nat) :
  l1 `prefix_of` l2 -> (length l1 <= n)%nat -> l1 `prefix_of` take n l2.
Proof.
  intros [rest ->] Hlen. rewrite take_app.
  rewrite take_ge by done. by eexists.
Qed.

(** A larger scroll budget only extends the result: with the same page and
    limit, the rows returned under [max_scrolls] are a prefix of the rows
    returned under any larger budget. *)
Theorem harvester_monotone_in_budget
    (page : Page) (limit max_scrolls max_scrolls' pause_ms : Z) :
  max_scrolls <= max_scrolls' ->
  (_collect_with_scroll extractor wheel wait_for_timeout page limit
     max_scrolls pause_ms).1
  `prefix_of` (_collect_with_scroll extractor wheel wait_for_timeout page
                 limit max_scrolls' pause_ms).1.
Proof.
  intros Hmax.
  destruct (collect_result page limit max_scrolls pause_ms)
    as [(k & Hk & Hge & Hlt & ->) | (Hlt & ->)];
    destruct (collect_result page limit max_scrolls' pause_ms)
      as [(k' & Hk' & Hge' & Hlt' & ->) | (Hlt' & ->)].
  - assert (k = k') as <-; [|done].
    destruct (lt_eq_lt_dec k k') as [[Hlt0|?]|Hlt0]; [|done|].
    + specialize (Hlt' k Hlt0). lia.
    + specialize (Hlt k' Hlt0). lia.
  - specialize (Hlt' k). lia.
  - destruct (Z.to_nat max_scrolls) as [|n] eqn:Hn; [apply prefix_nil|].
    pose proof (Hlt n) as Hn_lt.
    assert (S n <= S k')%nat as Hle.
    { destruct (le_lt_dec (S n) (S k')) as [?|Hgt]; [done|].
      specialize (Hlt k'). lia. }
    rewrite slice_to_nonneg by lia.
    apply prefix_take_r; [by apply unique_after_prefix | lia].
  - apply unique_after_prefix. lia.
Qed.

(** A larger limit only extends the result: with the same page and budget,
    the rows returned under a limit that is not negative are a prefix of the
    rows returned under any larger limit. *)
Theorem harvester_monotone_in_limit
    (page : Page) (limit limit' max_scrolls pause_ms : Z) :
  0 <= limit -> limit <= limit' ->
  (_collect_with_scroll extractor wheel wait_for_timeout page limit
     max_scrolls pause_ms).1
  `prefix_of` (_collect_with_scroll extractor wheel wait_for_timeout page
                 limit' max_scrolls pause_ms).1.
Proof.
  intros Hlimit Hle.
  destruct (collect_result page limit max_scrolls pause_ms)
    as [(k & Hk & Hge & Hlt & ->) | (Hlt & ->)];
    destruct (collect_result page limit' max_scrolls pause_ms)
      as [(k' & Hk' & Hge' & Hlt' & ->) | (Hlt' & ->)].
  - assert (k <= k')%nat as Hkk.
    { destruct (le_lt_dec k k') as [?|Hgt]; [done|].
      specialize (Hlt k' Hgt). lia. }
    rewrite !slice_to_nonneg by lia.
    apply prefix_take_r; [|rewrite length_take; lia].
    etrans; [apply prefix_take|]. apply unique_after_prefix. lia.
  - rewrite slice_to_nonneg by lia.
    etrans; [apply prefix_take|]. apply unique_after_prefix. lia.
  - specialize (Hlt k' Hk'). lia.
  - done.
Qed.

End HarvestBounds.

(** ** The endpoints: argument checks and the replies filter *)

Section EndpointChecks.
Import Endpoints.
Variable quote : string -> string.
Context {Page : Type}.
Variable open_page : result Page.
Variable goto : string -> Page -> Page.
Variable wait_for_timeout : Z -> Page -> Page.
Variable wheel : Page -> Page.
Variable extract : extractor_name -> Page -> list Harvester.row * Page.

Abbreviation run := (run quote open_page goto wait_for_timeout wheel extract).

(** An argument error comes before the browser: an endpoint whose required
    argument is missing or blank raises its [CliError] whatever the session
    would have done, also when opening the session would have failed, and
    so does a search with a tab that is neither [top] nor [latest] in any
    spelling of upper and lower case. The endpoints without a required
    argument raise no argument error. When the arguments pass and the
    session cannot be opened, the call fails with the error of the
    session. *)
Theorem endpoint_argument_errors_first (e : endpoint) (args : Args) :
  match e with
  | user_last_tweets | user_followers | user_followings =>
      _normalize_handle (a_username args) = "" ->
      run e args = Raise (CliError "--username is required.")
  | search_user =>
      strip (or_empty (a_keyword args)) = "" ->
      run e args = Raise (CliError "--keyword is required.")
  | advanced_search =>
      (strip (or_empty (a_query args)) = "" ->
       run e args = Raise (CliError "--query is required."))
      /\ (strip (or_empty (a_query args)) <> "" ->
          let tab :=
            lower (strip (match a_tab args with
                          | Some t => if str_empty t then "latest" else t
                          | None => "latest"
                          end)) in
          tab <> "top" -> tab <> "latest" ->
          run e args = Raise (CliError "--tab must be one of: top, latest"))
  | tweet_replies | tweet_quotes | tweet_retweeters | tweet_thread_context =>
      strip (or_empty (a_tweet_id args)) = "" ->
      run e args = Raise (CliError "--tweet-id is required.")
  | home_timeline | notifications_list | trends | spaces_live =>
      exists c, call_of quote e args = Ok c
  end
  /\ (forall c err,
        call_of quote e args = Ok c -> open_page = Raise err ->
        run e args = Raise err).
Proof.
  split.
  - destruct e; unfold Endpoints.run; cbn [call_of];
      unfold user_last_tweets_call, home_timeline_call,
        notifications_list_call, user_connections_call, search_user_call,
        advanced_search_call, tweet_replies_call, tweet_quotes_call,
        tweet_retweeters_call, tweet_thread_context_call, trends_call,
        spaces_live_call, harvest;
      try (intros Hblank; by rewrite Hblank);
      try (by eexists).
    split.
    + intros Hblank. by rewrite Hblank.
    + intros Hq%str_empty_false Htop%String.eqb_neq Hlatest%String.eqb_neq.
      by rewrite Hq, Htop, Hlatest.
  - intros c err Hcall Hopen. unfold Endpoints.run, harvest.
    by rewrite Hcall, Hopen.
Qed.

(** The replies an endpoint returns never include the tweet they reply to
    and are at most as many as the clamped limit, however many rows the
    harvester handed over; each of them is one of the harvested rows. *)
Theorem tweet_replies_exclude_root (args : Args) (tweets : list Harvester.row) :
  let tweet_id := strip (or_empty (a_tweet_id args)) in
  let replies := tweet_replies_keep args tweets in
  (forall r, r ∈ replies ->
     r ∈ tweets /\ str (or_ (get r "tweet_id") (VStr "")) <> tweet_id)
  /\ (Z.of_nat (length replies) <= Z.max 1 (Z.min (a_limit args) 200))
  /\ (length replies <= length tweets)%nat.
Proof.
  intros tweet_id replies. unfold replies, tweet_replies_keep.
  rewrite slice_to_nonneg by lia. fold tweet_id. split_and!.
  - intros r Hr%subseteq_take. apply list_elem_of_In, filter_In in Hr as [Hin Hne].
    split; [by apply list_elem_of_In|].
    apply negb_true_iff, String.eqb_neq in Hne. done.
  - rewrite length_take. lia.
  - rewrite length_take. etrans; [apply Nat.le_min_r|]. apply filter_length_le.
Qed.

End EndpointChecks.

(** ** The stream supervisor: round trips *)

Section StreamRoundTrips.
Import Stream.
Context {OS : Type} `{System OS}.

(** After a successful [start], [status] reads back the pid that [start]
    returned and the metadata it wrote, and reports the stream as running
    exactly when the probe of that pid succeeds. While that process lives
    and ffmpeg stays installed, a second [start] raises the already-running
    error naming that pid and changes nothing; once ffmpeg is gone from the
    search path, a second [start] raises the missing-ffmpeg error
    instead. *)
Theorem start_then_status (args args2 : StreamArgs) (fs fs' : Files) (os os' : OS)
    (s : Started) :
  _run_stream_start args fs os = (Ok s, fs', os') ->
  started s = true
  /\ (forall running,
        _pid_running (started_pid s) os' = Ok running ->
        exists started_at input_value cmd,
          _run_stream_status fs' os'
          = Ok {| st_running := running; st_error := None;
                  st_pid := Some (started_pid s);
                  st_meta := Some (stream_meta (started_pid s) started_at
                                     input_value (started_target s) cmd) |})
  /\ (which_ffmpeg os' = true ->
      _pid_running (started_pid s) os' = Ok true ->
      _run_stream_start args2 fs' os'
      = (Raise (already_running (started_pid s)), fs', os'))
  /\ (which_ffmpeg os' = false ->
      _run_stream_start args2 fs' os'
      = (Raise (CliError
                  "ffmpeg is required for live streaming. Install ffmpeg first."),
         fs', os')).
Proof.
  intros Hstart.
  pose proof (start_files args fs os) as Hfiles. rewrite Hstart in Hfiles.
  destruct Hfiles as (Hpid & started_at & input_value & cmd & Hmeta).
  split_and!.
  - unfold _run_stream_start in Hstart.
    repeat case_match; simplify_eq; done.
  - intros running Hrun. exists started_at, input_value, cmd.
    unfold _run_stream_status. by rewrite Hpid, Hrun, Hmeta.
  - intros Hffmpeg Hlive.
    unfold _run_stream_start, _ensure_ffmpeg, _run_stream_status.
    rewrite Hffmpeg, Hpid, Hlive. done.
  - intros Hffmpeg. unfold _run_stream_start, _ensure_ffmpeg.
    by rewrite Hffmpeg.
Qed.

(** After [stop] has returned, whichever way, both files are gone and
    [status] reports that nothing runs; a second [stop] answers "No running
    stream." and changes nothing. [stop] answers [stopped = True] exactly
    when the marker held the pid of a live process. *)
Theorem stop_then_status (fs fs' : Files) (os os' : OS) (r : Stopped) :
  _run_stream_stop fs os = (Ok r, fs', os') ->
  pid_file fs' = None
  /\ (pid_file fs <> None -> meta_file fs' = None)
  /\ _run_stream_status fs' os'
     = Ok {| st_running := false; st_error := None; st_pid := None;
             st_meta := None |}
  /\ _run_stream_stop fs' os'
     = (Ok {| stopped := false; stopped_message := Some "No running stream.";
              stopped_pid := None |}, fs', os')
  /\ (stopped r = true
      <-> exists pid, pid_file fs = Some (PidText pid)
                      /\ _pid_running pid os = Ok true).
Proof.
  intros Hstop.
  assert (pid_file fs' = None
          /\ (pid_file fs <> None -> meta_file fs' = None)) as [Hpid Hmeta].
  { pose proof (stop_files fs os) as Hfiles. rewrite Hstop in Hfiles.
    destruct Hfiles as [[Hnone ->] | [_ ->]]; done. }
  assert (stopped r = true
          <-> exists pid, pid_file fs = Some (PidText pid)
                          /\ _pid_running pid os = Ok true) as Hiff.
  { unfold _run_stream_stop in Hstop.
    destruct (pid_file fs) as [[pid|]|] eqn:Hmarker; simplify_eq.
    - destruct (_pid_running pid os) as [[|]|] eqn:Hlive; [| |done].
      + repeat case_match; simplify_eq; cbn; (split; [eauto | done]).
      + repeat case_match; simplify_eq; cbn.
        split; [done|]. intros (p & [= <-] & ?). congruence.
    - cbn. split; [done|]. by intros (p & [=] & ?). }
  split_and!; [done | done | | | done].
  - unfold _run_stream_status. by rewrite Hpid.
  - unfold _run_stream_stop. by rewrite Hpid.
Qed.

(** On a system where SIGKILL ends a process, the process recorded in the
    marker is gone once [stop] has returned, whether it went on SIGTERM or
    had to be killed, and a [stop] that answers [stopped = True] names its
    pid. *)
Theorem stop_leaves_no_process (fs fs' : Files) (os os' : OS) (r : Stopped)
    (pid : Z) :
  (forall os1 os2, os_kill pid SIGKILL os1 = Some os2 ->
                   _pid_running pid os2 = Ok false) ->
  pid_file fs = Some (PidText pid) ->
  _run_stream_stop fs os = (Ok r, fs', os') ->
  _pid_running pid os' = Ok false
  /\ (stopped r = true -> stopped_pid r = Some pid).
Proof.
  intros Hkill Hmarker Hstop. unfold _run_stream_stop in Hstop.
  rewrite Hmarker in Hstop.
  destruct (_pid_running pid os) as [[|]|] eqn:Hlive; [| |done].
  - destruct (kill pid SIGTERM os) as [os1|]; [|done].
    destruct (wait_exit stop_polls pid (time_time os1 + 8000) os1)
      as [[err|] os2]; [done|].
    destruct (_pid_running pid os2) as [[|]|] eqn:Hafter; [| |done].
    + destruct (kill pid SIGKILL os2) as [os3|] eqn:Hk; [|done].
      destruct (unlink_both fs os3) as [[err|] fs3]; simplify_eq. cbn.
      split; [|done]. unfold kill in Hk.
      destruct (fits_c_int pid); [|done].
      destruct (os_kill pid SIGKILL os2) eqn:Hsys; simplify_eq.
      by eapply Hkill.
    + destruct (unlink_both fs os2) as [[err|] fs3]; simplify_eq. done.
  - destruct (unlink_both fs os) as [[err|] fs3]; simplify_eq. done.
Qed.


End StreamRoundTrips.

(** ** Tweet lookup by id *)

Section TweetLookupFacts.
Import Harvester TweetLookup.

(** What the loop over [ids] keeps: [seen] holds the elements of [unique],
    which are all different. *)
Lemma unique_loop (ids : list string) : forall (unique : list string) (seen : gset string),
  NoDup unique -> (forall x, x ∈ seen <-> x ∈ unique) ->
  let '(unique', seen') := fold_left unique_step ids (unique, seen) in
  NoDup unique'
  /\ (forall x, x ∈ seen' <-> x ∈ unique')
  /\ (forall x, x ∈ unique' <-> x ∈ unique \/ x ∈ ids)
  /\ exists rest, unique' = unique ++ rest /\ rest `sublist_of` ids.
Proof.
  induction ids as [|id ids IH]; intros unique seen Hnd Hseen.
  { cbn. split_and!; [done | done | | exists []].
    - intros x. rewrite elem_of_nil. tauto.
    - by rewrite app_nil_r. }
  cbn [fold_left]. unfold unique_step at 2.
  destruct (bool_decide (id ∈ seen)) eqn:Hid.
  - apply bool_decide_eq_true in Hid.
    specialize (IH unique seen Hnd Hseen).
    destruct (fold_left unique_step ids (unique, seen)) as [unique' seen'].
    destruct IH as (Hnd' & Hseen' & Hin & rest & -> & Hsub).
    split_and!; [done | done | | exists rest; split; [done|]].
    + intros x. rewrite Hin, elem_of_cons.
      split; [tauto|]. intros [?|[->|?]]; auto. left. by apply Hseen.
    + by apply sublist_cons.
  - apply bool_decide_eq_false in Hid.
    assert (id ∉ unique) as Hnew by (by rewrite <- Hseen).
    specialize (IH (unique ++ [id]) ({[id]} ∪ seen)).
    destruct (fold_left unique_step ids (unique ++ [id], {[id]} ∪ seen))
      as [unique' seen'].
    destruct IH as (Hnd' & Hseen' & Hin & rest & -> & Hsub).
    { apply NoDup_app. split_and!; [done | | apply NoDup_singleton].
      by intros x Hx ->%list_elem_of_singleton. }
    { intros x. rewrite elem_of_union, elem_of_singleton, elem_of_app,
        list_elem_of_singleton, Hseen. tauto. }
    split_and!; [done | done | | exists (id :: rest)].
    + intros x. rewrite Hin, elem_of_app, list_elem_of_singleton, elem_of_cons.
      tauto.
    + split; [by rewrite <- app_assoc | by apply sublist_skip].
Qed.

Lemma stripped_nonblank_nonempty (items : list string) (x : string) :
  x ∈ stripped_nonblank items ->
  x <> "" /\ strip x = x /\ exists item, item ∈ items /\ x = strip item.
Proof.
  unfold stripped_nonblank. intros Hx.
  apply list_elem_of_omap in Hx as (item & Hitem & Hsome).
  cbn in Hsome. destruct (str_empty (strip item)) eqn:He; simplify_eq.
  split_and!; [by apply str_empty_false | apply strip_idemp | eauto].
Qed.

Lemma stripped_nonblank_nil (items : list string) :
  stripped_nonblank items = [] <-> Forall (fun item => strip item = "") items.
Proof.
  unfold stripped_nonblank. induction items as [|item items IH]; [done|].
  cbn [omap list_omap]. rewrite Forall_cons.
  destruct (strip item) eqn:Hstrip; cbn [str_empty]; [|split; [done|]].
  - rewrite IH. tauto.
  - by intros [? _].
Qed.

(** The pieces of [--tweet-ids] and the values of [--tweet-id], before they
    are stripped. *)
Lemma requested_ids_pieces (args : LookupArgs) :
  requested_ids args
  = stripped_nonblank
      (match l_tweet_ids args with
       | Some s => split_commas s
       | None => []
       end ++ l_tweet_id args).
Proof.
  unfold requested_ids, stripped_nonblank. rewrite omap_app.
  destruct (l_tweet_ids args) as [[|a s]|], (l_tweet_id args) as [|i others];
    cbn [str_empty app]; rewrite ?app_nil_r; try done.
Qed.

Lemma requested_ids_nonempty (args : LookupArgs) (x : string) :
  x ∈ requested_ids args -> x <> "" /\ strip x = x.
Proof.
  rewrite requested_ids_pieces.
  by intros (? & ? & _)%stripped_nonblank_nonempty.
Qed.

Section Lookup.
Context {Page : Type}.
Variable open_page : result Page.
Variable goto : string -> Page -> Page.
Variable wait_for_timeout : Z -> Page -> Page.
Variable extract_tweets : Page -> list row * Page.

Abbreviation lookup_step := (lookup_step goto wait_for_timeout extract_tweets).

Lemma lookup_loop_ids (ids : list string) : forall tweets page,
  map requested_tweet_id (fold_left lookup_step ids (tweets, page)).1
  = map requested_tweet_id tweets ++ ids.
Proof.
  induction ids as [|id ids IH]; intros tweets page.
  { cbn. by rewrite app_nil_r. }
  cbn [fold_left]. unfold TweetLookup.lookup_step at 2.
  destruct (extract_tweets _) as [rows page']. rewrite IH, map_app. cbn.
  by rewrite <- app_assoc.
Qed.


End Lookup.

End TweetLookupFacts.

(** ** The live search stream *)

Section LiveSearchFacts.
Import Harvester LiveSearch.

Lemma get_set_same (d : dict) (k : string) (v : value) :
  get (ODict.set k v d) k = v.
Proof.
  induction d as [|[k0 v0] d IH]; cbn.
  - by rewrite String.eqb_refl.
  - destruct (decide (k0 = k)) as [->|Hne]; cbn.
    + by rewrite String.eqb_refl.
    + apply String.eqb_neq in Hne. by rewrite Hne.
Qed.

Lemma get_set_other (d : dict) (k k' : string) (v : value) :
  k <> k' -> get (ODict.set k v d) k' = get d k'.
Proof.
  intros Hkk. induction d as [|[k0 v0] d IH]; cbn.
  - apply String.eqb_neq in Hkk. by rewrite Hkk.
  - destruct (decide (k0 = k)) as [->|Hne]; cbn.
    + apply String.eqb_neq in Hkk. by rewrite Hkk.
    + by rewrite IH.
Qed.

(** The stamp does not touch the key of an event. *)
Lemma event_key_stamp (r : row) (t : Z) :
  event_key (ODict.set "observed_at" (VInt t) r) = event_key r.
Proof. unfold event_key. by rewrite !get_set_other. Qed.

Lemma observe_inv (now max_events : Z) (rows : list row) :
  forall (seen : gset string) (events : list row),
    events_inv seen events ->
    Z.of_nat (length events) < max_events ->
    let '(seen', events') := observe rows now max_events seen events in
    events_inv seen' events'
    /\ Z.of_nat (length events') <= max_events
    /\ events `prefix_of` events'.
Proof.
  induction rows as [|r rows IH]; intros seen events Hinv Hlen.
  { cbn. split_and!; [done | lia | done]. }
  cbn [observe].
  destruct (str_empty (event_key r) || bool_decide (event_key r ∈ seen))
    eqn:Hskip.
  { by apply IH. }
  apply orb_false_iff in Hskip as [Hkey%str_empty_false Hnew%bool_decide_eq_false].
  assert (events_inv ({[event_key r]} ∪ seen)
            (events ++ [ODict.set "observed_at" (VInt now) r])) as Hinv'.
  { destruct Hinv as [Hall Hnd]. split.
    - intros e [He|He%list_elem_of_singleton]%elem_of_app; [|subst e].
      + destruct (Hall e He) as (? & ? & ?). split_and!; [|done..].
        apply elem_of_union. by right.
      + rewrite event_key_stamp. split_and!; [|done|].
        * apply elem_of_union. left. by apply elem_of_singleton.
        * exists now. apply get_set_same.
    - rewrite map_app. cbn [map]. rewrite event_key_stamp.
      apply NoDup_app. split_and!; [done | | apply NoDup_singleton].
      intros k Hk ->%list_elem_of_singleton.
      apply list_elem_of_fmap in Hk as [e [Heq He]].
      destruct (Hall e He) as (Hseen & _). by rewrite <- Heq in Hseen. }
  assert (length (events ++ [ODict.set "observed_at" (VInt now) r])
          = S (length events)) as Hlen'.
  { rewrite length_app. cbn. lia. }
  destruct (max_events <=? _) eqn:Hfull.
  - split_and!; [done | lia | by apply prefix_app_r].
  - apply Z.leb_gt in Hfull.
    specialize (IH _ _ Hinv' Hfull).
    destruct (observe rows now max_events _ _) as [seen' events'].
    destruct IH as (? & ? & Hpre). split_and!; [done..|].
    etrans; [|apply Hpre]. by apply prefix_app_r.
Qed.

Section Watch.
Context {World : Type}.
Variable quote : string -> string.
Variable open_page : World -> result World.
Variable goto : string -> World -> World.
Variable wait_for_timeout : Z -> World -> World.
Variable reload : World -> World.
Variable extract_tweets : World -> list row * World.
Variable time_ms : World -> Z.

Abbreviation watch := (watch wait_for_timeout reload extract_tweets time_ms).

Lemma watch_inv (end_at interval max_events : Z) (turns : nat) :
  forall (seen : gset string) (events : list row) (w : World),
    events_inv seen events ->
    Z.of_nat (length events) <= max_events ->
    let '(events', _) := watch turns end_at interval max_events seen events w in
    (exists seen', events_inv seen' events')
    /\ Z.of_nat (length events') <= max_events
    /\ events `prefix_of` events'.
Proof.
  induction turns as [|turns IH]; intros seen events w Hinv Hlen.
  { cbn. split_and!; [by eexists | done | done]. }
  cbn [LiveSearch.watch].
  destruct ((time_ms w <? end_at) && (Z.of_nat (length events) <? max_events))
    eqn:Hcond; [|split_and!; [by eexists | done | done]].
  apply andb_true_iff in Hcond as [_ Hroom%Z.ltb_lt].
  destruct (extract_tweets w) as [rows w1].
  pose proof (observe_inv (time_ms w1 / 1000) max_events rows seen events
                Hinv Hroom) as Hobs.
  destruct (observe rows _ _ seen events) as [seen1 events1].
  destruct Hobs as (Hinv1 & Hlen1 & Hpre1).
  destruct (max_events <=? _); [split_and!; [by eexists | done | done]|].
  specialize (IH seen1 events1
                (wait_for_timeout (interval * 1000) (reload w1)) Hinv1 Hlen1).
  destruct (watch turns _ _ _ seen1 events1 _) as [events' w'].
  destruct IH as (? & ? & Hpre). split_and!; [done..|]. by etrans.
Qed.

(** With a clock that goes on, the loop ends because the time is up or
    because [max_events] events are collected. *)
Lemma watch_ends (end_at interval max_events : Z) :
  (forall ms w, time_ms w + ms <= time_ms (wait_for_timeout ms w)) ->
  (forall w, time_ms w <= time_ms (reload w)) ->
  (forall w, time_ms w <= time_ms (extract_tweets w).2) ->
  1 <= interval ->
  forall (turns : nat) (seen : gset string) (events : list row) (w : World),
    end_at <= time_ms w + interval * 1000 * (Z.of_nat turns - 1) ->
    let '(events', w') :=
      watch turns end_at interval max_events seen events w in
    end_at <= time_ms w' \/ max_events <= Z.of_nat (length events').
Proof.
  intros Hwait Hreload Hextract Hinterval.
  induction turns as [|turns IH]; intros seen events w0 Hfuel.
  { cbn. left. nia. }
  cbn [LiveSearch.watch].
  destruct ((time_ms w0 <? end_at)
            && (Z.of_nat (length events) <? max_events)) eqn:Hcond.
  2:{ apply andb_false_iff in Hcond as [?%Z.ltb_ge|?%Z.ltb_ge];
        [left|right]; lia. }
  pose proof (Hextract w0) as Hw1.
  destruct (extract_tweets w0) as [rows w1]. cbn [snd] in Hw1.
  destruct (observe rows _ _ seen events) as [seen1 events1].
  destruct (max_events <=? _) eqn:Hfull.
  { right. by apply Z.leb_le. }
  apply IH.
  pose proof (Hwait (interval * 1000) (reload w1)).
  pose proof (Hreload w1). nia.
Qed.

(** The search stream refuses a blank query before the browser is touched,
    and with a query it fails with the error of a session that cannot be
    opened. What it returns names the stripped query and the duration and
    interval clamped to 5..3600 and 2..120 seconds; it never reports a
    tweet twice and never more events than the clamped [--max-events],
    which is at most 1000; every event has a key and carries its
    [observed_at] stamp. With a clock that goes on, it returns only when
    the clamped duration has passed or exactly the clamped number of events
    is collected. *)
Theorem live_search_events_bounded (args : LiveArgs) (w : World) :
  let query := strip (Endpoints.or_empty (v_query args)) in
  let duration := Z.max 5 (Z.min (v_duration args) 3600) in
  let interval := Z.max 2 (Z.min (v_interval args) 120) in
  let max_events := Z.max 1 (Z.min (v_max_events args) 1000) in
  let outcome :=
    _run_stream_live_search quote open_page goto wait_for_timeout reload
      extract_tweets time_ms args w in
  (query = "" -> outcome = (Raise (CliError "--query is required."), w))
  /\ (forall err,
        query <> "" -> open_page w = Raise err -> outcome = (Raise err, w))
  /\ (forall r w',
        outcome = (Ok r, w') ->
        query <> "" /\ w_query r = query
        /\ w_duration r = duration /\ 5 <= duration <= 3600
        /\ w_interval r = interval /\ 2 <= interval <= 120
        /\ Z.of_nat (length (w_events r)) <= max_events <= 1000
        /\ NoDup (map event_key (w_events r))
        /\ Forall (fun e => event_key e <> ""
                            /\ exists t, get e "observed_at" = VInt t)
             (w_events r)
        /\ ((forall w0 w1, open_page w0 = Ok w1 -> time_ms w0 <= time_ms w1) ->
            (forall url w0, time_ms w0 <= time_ms (goto url w0)) ->
            (forall ms w0, time_ms w0 + ms <= time_ms (wait_for_timeout ms w0)) ->
            (forall w0, time_ms w0 <= time_ms (reload w0)) ->
            (forall w0, time_ms w0 <= time_ms (extract_tweets w0).2) ->
            time_ms w + duration * 1000 <= time_ms w'
            \/ Z.of_nat (length (w_events r)) = max_events)).
Proof.
  intros query duration interval max_events outcome.
  unfold outcome, _run_stream_live_search.
  fold query duration interval max_events.
  destruct (str_empty query) eqn:Hq.
  { apply str_empty_true in Hq. split_and!; done. }
  apply str_empty_false in Hq.
  destruct (open_page w) as [w0|err] eqn:Hopen.
  2:{ split_and!; [done | by intros ? _ [= <-] | by intros ? ? [=]]. }
  split_and!; [done | done |].
  match goal with
  | |- context [LiveSearch.watch _ _ _ _ ?n ?e ?i ?m ∅ [] ?w1] =>
      pose proof (watch_inv e i m n ∅ [] w1) as Hwatch;
      pose proof (fun Hwait Hreload Hextract =>
                    watch_ends e i m Hwait Hreload Hextract ltac:(lia)
                      n ∅ [] w1) as Hends;
      destruct (LiveSearch.watch wait_for_timeout reload extract_tweets
                  time_ms n e i m ∅ [] w1) as [events w2];
      set (started := w1) in *
  end.
  destruct Hwatch as ([seen' [Hall Hnd]] & Hlen & _).
  { split; [|apply NoDup_nil_2]. by intros e ?%elem_of_nil. }
  { cbn. lia. }
  intros r w' [= <- <-]. cbn [w_query w_duration w_interval w_events].
  split_and!; try done; try lia.
  - apply Forall_forall. intros e He. by destruct (Hall e He) as (_ & ? & ?).
  - intros Hpage Hgoto Hwait Hreload Hextract.
    specialize (Hends Hwait Hreload Hextract).
    assert (time_ms w <= time_ms started) as Hstarted.
    { unfold started. pose proof (Hpage w w0 Hopen).
      pose proof (Hgoto ("https://x.com/search?q=" +:+ quote query
                         +:+ "&src=typed_query&f=live") w0).
      pose proof (Hwait 900 (goto ("https://x.com/search?q=" +:+ quote query
                                   +:+ "&src=typed_query&f=live") w0)).
      lia. }
    destruct Hends as [Htime|Hfull]; [|left; lia|right; lia].
    unfold watch_turns.
    pose proof (Z.mul_succ_div_gt duration interval).
    rewrite Nat2Z.inj_add, Z2Nat.id by (apply Z.div_pos; lia). nia.
Qed.

(** The watch runs its course: when waiting takes at least as long as
    asked and neither reading nor reloading the page turns the clock back,
    the loop ends because [duration] seconds have passed or because
    [max_events] events are collected, never before. *)
Theorem live_search_runs_its_course
    (duration interval max_events : Z) (seen : gset string)
    (events : list row) (w : World) :
  (forall ms w, time_ms w + ms <= time_ms (wait_for_timeout ms w)) ->
  (forall w, time_ms w <= time_ms (reload w)) ->
  (forall w, time_ms w <= time_ms (extract_tweets w).2) ->
  0 <= duration -> 1 <= interval ->
  let '(events', w') :=
    watch (watch_turns duration interval) (time_ms w + duration * 1000)
      interval max_events seen events w in
  time_ms w + duration * 1000 <= time_ms w'
  \/ max_events <= Z.of_nat (length events').
Proof.
  intros Hwait Hreload Hextract Hduration Hinterval.
  set (end_at := time_ms w + duration * 1000).
  assert (forall (turns : nat) seen events w,
            end_at <= time_ms w + interval * 1000 * (Z.of_nat turns - 1) ->
            let '(events', w') :=
              watch turns end_at interval max_events seen events w in
            end_at <= time_ms w' \/ max_events <= Z.of_nat (length events'))
    as Hends.
  { clear seen events. induction turns as [|turns IH];
      intros seen events w0 Hfuel.
    { cbn. left. nia. }
    cbn [LiveSearch.watch].
    destruct ((time_ms w0 <? end_at)
              && (Z.of_nat (length events) <? max_events)) eqn:Hcond.
    2:{ apply andb_false_iff in Hcond as [?%Z.ltb_ge|?%Z.ltb_ge]; [left|right]; lia. }
    pose proof (Hextract w0) as Hw1.
    destruct (extract_tweets w0) as [rows w1]. cbn [snd] in Hw1.
    destruct (observe rows _ _ seen events) as [seen1 events1].
    destruct (max_events <=? _) eqn:Hfull.
    { right. by apply Z.leb_le. }
    apply IH.
    pose proof (Hwait (interval * 1000) (reload w1)).
    pose proof (Hreload w1). nia. }
  apply Hends. unfold end_at, watch_turns.
  pose proof (Z.mul_succ_div_gt duration interval).
  rewrite Nat2Z.inj_add, Z2Nat.id by (apply Z.div_pos; lia). nia.
Qed.

End Watch.

End LiveSearchFacts.

(** ** How the parts compose *)

Section LookupMatchFacts.
Import Harvester TweetLookup.


End LookupMatchFacts.

Section EndpointResultFacts.
Import Harvester Endpoints.
Variable quote : string -> string.
Context {Page : Type}.
Variable open_page : result Page.
Variable goto : string -> Page -> Page.
Variable wait_for_timeout : Z -> Page -> Page.
Variable wheel : Page -> Page.
Variable extract : extractor_name -> Page -> list row * Page.

(** The rows of a call have distinct keys and, under a limit that is not
    negative, are no more than the limit. *)
Lemma collect_distinct_bounded (extractor : Page -> list row * Page)
    (page : Page) (limit max_scrolls pause : Z) :
  let result :=
    (_collect_with_scroll extractor wheel wait_for_timeout page limit
       max_scrolls pause).1 in
  NoDup (map row_key result)
  /\ (0 <= limit -> Z.of_nat (length result) <= limit).
Proof.
  intros result.
  destruct (collect_result extractor wheel wait_for_timeout page limit
              max_scrolls pause) as [(k & _ & _ & _ & Hres) | (Hlt & Hres)];
    fold result in Hres; rewrite Hres.
  - destruct (slice_to_take limit
                (unique_rows (Harvester.extracted extractor wheel
                                wait_for_timeout (S k) pause page)))
      as [m Hm].
    split.
    + rewrite Hm. change (map row_key) with (fmap (M:=list) row_key).
      rewrite fmap_take. eapply (sublist_NoDup _ _); [|apply sublist_take].
      apply unique_rows_NoDup.
    + intros Hlimit. rewrite slice_to_nonneg, length_take by done. lia.
  - split; [apply unique_rows_NoDup|]. intros Hlimit.
    destruct (Z.to_nat max_scrolls) as [|n]; [cbn; lia|].
    specialize (Hlt n). lia.
Qed.

Lemma List_filter_sublist {A} (f : A -> bool) (l : list A) :
  List.filter f l `sublist_of` l.
Proof.
  induction l as [|x l IH]; cbn; [done|].
  destruct (f x); [by apply sublist_skip | by apply sublist_cons].
Qed.

(** Whatever the page shows, a paginated endpoint returns no more rows
    than its clamped limit, hence no more than its cap, and never two rows
    with the same key. *)
Theorem endpoint_rows_bounded_and_distinct (e : endpoint) (args : Args)
    (rows : list row) :
  run quote open_page goto wait_for_timeout wheel extract e args = Ok rows ->
  Z.of_nat (length rows) <= Z.max 1 (Z.min (a_limit args) (cap_of e)) <= cap_of e
  /\ NoDup (map row_key rows).
Proof.
  unfold run, harvest. intros Hrun.
  destruct (call_of quote e args) as [c|] eqn:Hcall; [|done].
  destruct open_page as [page|]; [|done].
  pose proof (collect_distinct_bounded (extract (hc_extractor c))
                (wait_for_timeout (hc_wait c) (goto (hc_url c) page))
                (hc_limit c) (hc_max_scrolls c) 750) as [Hnd Hlen].
  assert (1 <= cap_of e) as Hcap by (destruct e; cbn; lia).
  assert (hc_limit c = match e with
                       | tweet_replies =>
                           Z.max 1 (Z.min (a_limit args) (cap_of e)) + 2
                       | _ => Z.max 1 (Z.min (a_limit args) (cap_of e))
                       end) as Hlimit.
  { destruct e; cbn in Hcall;
      unfold user_last_tweets_call, home_timeline_call,
        notifications_list_call, user_connections_call, search_user_call,
        advanced_search_call, tweet_replies_call, tweet_quotes_call,
        tweet_retweeters_call, tweet_thread_context_call, trends_call,
        spaces_live_call in Hcall;
      repeat case_match; simplify_eq; done. }
  split; [split; [|lia]|].
  - destruct e; simplify_eq; try (specialize (Hlen ltac:(lia)); lia).
    unfold tweet_replies_keep. rewrite slice_to_nonneg, length_take by lia.
    cbn [cap_of]. lia.
  - destruct e; simplify_eq; try done.
    unfold tweet_replies_keep. rewrite slice_to_nonneg by lia.
    change (map row_key) with (fmap (M:=list) row_key).
    eapply (sublist_NoDup _ _); [exact Hnd|].
    apply fmap_sublist. etrans; [apply sublist_take|].
    apply List_filter_sublist.
Qed.

End EndpointResultFacts.

Section SavedSessionFacts.
Import Cookies.

(** A session saved by [_save_session_cookies] backs a later run: when the
    browser source is not used or fails with a [CliError], [_with_page]
    starts the context with exactly the retained cookies that were saved,
    as long as there is one; with none saved, a required session fails and
    one that is not required starts a context without cookies. *)
Theorem saved_session_backs_later_run (env : Env) (args : BrowserArgs)
    (raw : list raw_item) (old : cookie_file)
    (require_session allow_browser_cookies : bool) :
  playwright_installed env = true ->
  saved_file env = (_save_session_cookies (CtxList raw) old).1 ->
  (allow_browser_cookies = false
   \/ exists m, _load_x_cookies env (browser args) (chrome_profile args)
                  (chrome_profile_name args) = Raise (CliError m)) ->
  match filter dict_retained (dicts_of raw) with
  | [] =>
      if require_session
      then exists err,
          _with_page env args require_session allow_browser_cookies true
          = Raise err
      else _with_page env args require_session allow_browser_cookies true
           = open_context env []
  | saved =>
      _with_page env args require_session allow_browser_cookies true
      = open_context env saved
  end.
Proof.
  intros Hpw Hsaved Hbrowser. unfold _with_page.
  rewrite Hpw, Hsaved. cbn [negb _save_session_cookies fst].
  rewrite save_loop_filter. cbn [_load_saved_session_cookies].
  rewrite load_loop_filter, dicts_of_dicts, filter_retained_twice.
  destruct Hbrowser as [->|[m ->]];
    destruct (filter dict_retained (dicts_of raw)), require_session;
    try destruct allow_browser_cookies; eauto.
Qed.

End SavedSessionFacts.

(** ** The stream target *)

Section StreamTargetFacts.
Import Endpoints Stream.

(** The target of a stream is the stripped url alone when there is no key;
    otherwise it is the stripped url and the stripped key with a slash
    between them, which is added only when the url does not end in one. A
    target has no white space at either end, and a blank url is the one
    error. *)
Theorem stream_target_url_shape (rtmp_url stream_key : option string) :
  let base := strip (or_empty rtmp_url) in
  let key := strip (or_empty stream_key) in
  match _stream_target_url rtmp_url stream_key with
  | Raise err => base = "" /\ err = CliError "--rtmp-url is required."
  | Ok target =>
      base <> ""
      /\ target <> ""
      /\ (starts_inside (or_empty stream_key) = false ->
          strip target = target)
      /\ startswith target base = true
      /\ endswith target key = true
      /\ (key = "" -> target = base)
      /\ (key <> "" ->
          exists sep,
            target = base +:+ sep +:+ key
            /\ endswith (base +:+ sep) "/" = true
            /\ (sep = "" <-> endswith base "/" = true))
  end.
Proof.
  intros base key. unfold _stream_target_url. fold base key.
  pose proof (strip_idemp (or_empty rtmp_url)) as Hbase.
  pose proof (strip_idemp (or_empty stream_key)) as Hkey.
  pose proof (strip_starts (or_empty stream_key)) as Hstart.
  fold base in Hbase. fold key in Hkey, Hstart.
  destruct (str_empty base) eqn:Hb.
  { apply str_empty_true in Hb. done. }
  apply str_empty_false in Hb.
  assert (forall t, base +:+ t <> "") as Hne.
  { intros t. destruct base; [done|]. by rewrite append_cons. }
  assert (forall t, endswith (t +:+ key) key = true) as Hend.
  { intros t. unfold endswith. rewrite rev_append. apply prefix_append. }
  destruct (str_empty key) eqn:Hk.
  { apply str_empty_true in Hk. split_and!; try done.
    - rewrite <- (append_nil_r base) at 1. apply prefix_append.
    - rewrite Hk. unfold endswith. by destruct (String.rev base). }
  apply str_empty_false in Hk.
  destruct (endswith base "/") eqn:Hslash.
  - split_and!; try done.
    + intros Hvalid. apply strip_append; auto.
    + apply prefix_append.
    + intros _. exists "". change ("" +:+ key) with key.
      rewrite append_nil_r. done.
  - split_and!; try done.
    + intros Hvalid. apply strip_append; try done.
      apply (strip_append "/" key); auto.
    + apply prefix_append.
    + rewrite <- append_assoc. apply Hend.
    + intros _. exists "/". split_and!; [done| |by split].
      unfold endswith. rewrite rev_append. apply prefix_append.
Qed.

End StreamTargetFacts.

(** ** The further properties on the sample inputs *)

Section MoreWitnesses.
Import Cookies Harvester Endpoints Stream LiveSearch Samples MoreSamples.

(** The cookie of the logged-in browser profile comes back unchanged from
    the persisted document. *)
Lemma browser_cookies_reload_witness :
  _load_saved_session_cookies (FileList (map ItemDict (map jar_dict fresh_jar)))
  = map jar_dict fresh_jar.
Proof.
  apply (browser_cookies_survive_reload env_both "chrome" None "Default"
           (map jar_dict fresh_jar)).
  reflexivity.
Defined.

(** After the login the session of a later run holds the two cookies that
    were saved, although no browser profile can be read. *)
Lemma saved_session_witness :
  _with_page env_after_login chrome_args true true true
  = Ok [saved_cookie; saved_only_cookie].
Proof.
  apply (saved_session_backs_later_run env_after_login chrome_args
           login_context FileMissing true true).
  - reflexivity.
  - reflexivity.
  - right. eexists. vm_compute. reflexivity.
Defined.

(** With three new rows per cycle, one cycle gives the first three of the
    seven rows that fourteen cycles give. *)
Lemma harvester_budget_witness :
  (_collect_with_scroll three_per_cycle timeline_wheel timeline_wait
     fresh_timeline 7 1 750).1
  `prefix_of` (_collect_with_scroll three_per_cycle timeline_wheel
                 timeline_wait fresh_timeline 7 14 750).1.
Proof.
  apply (harvester_monotone_in_budget three_per_cycle timeline_wheel
           timeline_wait fresh_timeline 7 1 14 750).
  lia.
Defined.

(** A limit of 2 gives the first two of the rows a limit of 7 gives. *)
Lemma harvester_limit_prefix_witness :
  (_collect_with_scroll three_per_cycle timeline_wheel timeline_wait
     fresh_timeline 2 14 750).1
  `prefix_of` (_collect_with_scroll three_per_cycle timeline_wheel
                 timeline_wait fresh_timeline 7 14 750).1.
Proof.
  apply (harvester_monotone_in_limit three_per_cycle timeline_wheel
           timeline_wait fresh_timeline 2 7 14 750); lia.
Defined.

(** [user_last_tweets --username @jack --limit -5] returns one row. *)
Lemma endpoint_rows_witness :
  Z.of_nat (length [tweet 0 "a"])
  <= Z.max 1 (Z.min (a_limit negative_limit_args) (cap_of user_last_tweets))
  <= cap_of user_last_tweets
  /\ NoDup (map row_key [tweet 0 "a"]).
Proof.
  apply (endpoint_rows_bounded_and_distinct (fun s => s) (Ok fresh_timeline)
           timeline_goto timeline_wait timeline_wheel timeline_extract
           user_last_tweets negative_limit_args).
  vm_compute. reflexivity.
Defined.

(** On the idle machine [start] launches pid 5000, and [status] then
    reports it as running. *)
Lemma start_status_witness :
  exists started_at input_value cmd,
    _run_stream_status started_run.1.2 started_run.2
    = Ok {| st_running := true; st_error := None; st_pid := Some 5000;
            st_meta := Some (stream_meta 5000 started_at input_value
                               "rtmp://live.x.com/app/key" cmd) |}.
Proof.
  pose proof (start_then_status stream_args stream_args no_marker
                started_run.1.2 idle_os started_run.2
                {| started := true; started_pid := 5000;
                   started_target := "rtmp://live.x.com/app/key" |})
    as Hspec.
  destruct Hspec as (_ & Hstatus & _); [vm_compute; reflexivity|].
  apply (Hstatus true). reflexivity.
Defined.

(** After [stop] of the running stream, [status] reports nothing. *)
Lemma stop_status_witness :
  _run_stream_status stopped_run.1.2 stopped_run.2
  = Ok {| st_running := false; st_error := None; st_pid := None;
          st_meta := None |}.
Proof.
  destruct (stop_then_status marker_4242 stopped_run.1.2 streaming_os
              stopped_run.2
              {| stopped := true; stopped_message := None;
                 stopped_pid := Some 4242 |})
    as (_ & _ & Hstatus & _); [vm_compute; reflexivity|].
  exact Hstatus.
Defined.

Lemma is_alive_reap (pid : Z) (os : ToyOS) : is_alive pid (reap pid os) = false.
Proof.
  unfold is_alive, reap. cbn [alive].
  induction (alive os) as [|p ps IH]; [done|]. cbn [List.filter].
  destruct (Z.eqb_spec pid p) as [->|Hne]; cbn [negb]; [done|].
  cbn [existsb]. rewrite IH. by apply Z.eqb_neq in Hne as ->.
Qed.

(** The stream that ignores SIGTERM is gone after [stop]. *)
Lemma stop_stubborn_witness :
  _pid_running 4242 stubborn_stopped_run.2 = Ok false.
Proof.
  apply (stop_leaves_no_process marker_4242 stubborn_stopped_run.1.2
           stubborn_os stubborn_stopped_run.2
           {| stopped := true; stopped_message := None;
              stopped_pid := Some 4242 |} 4242).
  - intros os1 os2. unfold _pid_running. cbn [os_kill toy_system fits_c_int].
    destruct (is_alive 4242 os1); [|done]. intros [= <-].
    by rewrite is_alive_reap.
  - reflexivity.
  - vm_compute. reflexivity.
Defined.


(** A watch of 10 seconds with one new tweet per reload ends with the
    third event, before the time is up. *)
Lemma live_search_course_witness :
  let '(events', w') :=
    watch ticker_wait ticker_reload ticker_extract ticks (watch_turns 10 2)
      (ticks ticker_start + 10 * 1000) 2 3 ∅ [] ticker_start in
  ticks ticker_start + 10 * 1000 <= ticks w'
  \/ 3 <= Z.of_nat (length events').
Proof.
  apply (live_search_runs_its_course ticker_wait ticker_reload ticker_extract
           ticks 10 2 3 ∅ [] ticker_start).
  - intros ms w. cbn. lia.
  - intros w. cbn. lia.
  - intros w. cbn. lia.
  - lia.
  - lia.
Defined.

(** A handle that is a no-break space is blank: the endpoint raises its
    argument error, also on a machine where the session cannot be opened. *)
Lemma endpoint_blank_handle_witness :
  run (fun s => s) (Raise (CliError "Session is not logged in."))
    timeline_goto timeline_wait timeline_wheel timeline_extract
    user_last_tweets blank_handle_args
  = Raise (CliError "--username is required.").
Proof.
  apply (proj1 (endpoint_argument_errors_first (fun s => s)
                  (Raise (CliError "Session is not logged in."))
                  timeline_goto timeline_wait timeline_wheel timeline_extract
                  user_last_tweets blank_handle_args)).
  reflexivity.
Defined.


(** A url between no-break spaces and a key after an ideographic space
    are stripped and joined by one slash; a url that is a no-break space
    is blank. *)
Lemma stream_target_witness :
  _stream_target_url (Some (nbsp +:+ "rtmp://live.x.com/app" +:+ nbsp))
    (Some (ideographic_space +:+ "key"))
  = Ok "rtmp://live.x.com/app/key"
  /\ strip "rtmp://live.x.com/app/key" = "rtmp://live.x.com/app/key"
  /\ _stream_target_url (Some nbsp) (Some "key")
     = Raise (CliError "--rtmp-url is required.").
Proof.
  pose proof (stream_target_url_shape
                (Some (nbsp +:+ "rtmp://live.x.com/app" +:+ nbsp))
                (Some (ideographic_space +:+ "key"))) as Hshape.
  pose proof (stream_target_url_shape (Some nbsp) (Some "key")) as Hblank.
  cbv zeta in Hshape, Hblank.
  destruct (_stream_target_url
              (Some (nbsp +:+ "rtmp://live.x.com/app" +:+ nbsp))
              (Some (ideographic_space +:+ "key"))) as [target|err] eqn:Hurl.
  - assert (target = "rtmp://live.x.com/app/key") as ->.
    { vm_compute in Hurl. by injection Hurl as <-. }
    destruct Hshape as (_ & _ & Hstrip & _).
    split_and!; [done | by apply Hstrip |].
    destruct (_stream_target_url (Some nbsp) (Some "key")) as [other|err'].
    + destruct Hblank as [Hbase _]. by destruct Hbase.
    + by destruct Hblank as [_ ->].
  - vm_compute in Hurl. discriminate.
Defined.

End MoreWitnesses.
